(** * Oilers analytics: the derivation layer

    A shallow embedding of the pure functions of the dashboard,
    [utils/statsCalculations] (possession metrics, the expected-goals
    heuristic, the Corsi flow) and [utils/rinkCoordinates] (attacking-zone
    normalisation and the clock helpers), followed by the properties the
    specification states about them.

    Numbers.  A JavaScript number is a binary64 double.  Counters and clock
    values are whole numbers far below 2^53, where doubles are exact, and
    are embedded as integers [Z].  The ratio functions are embedded twice:
    in module [Double] over the binary64 floats of the kernel, operation
    for operation, where a statement is about the exact value the code
    returns; and over the rationals [Q], without rounding, for the
    statements of order and range, which rounding preserves (it is
    monotone, and the bounds 0, 50, 100 and 200 are doubles).  The estimator
    needs a square root and an arc tangent and is embedded over the reals,
    extended with the one non-finite value its code can produce, NaN. *)

From Stdlib Require Import Floats Uint63.
From Stdlib Require Import ZArith QArith Qfield List String Ascii Bool Lia.
From Stdlib Require Import Permutation Sorted DecimalString.
From Stdlib Require Import Reals Lra.
From Stdlib Require Lqa.
From Stdlib Require Import Qabs Qminmax.
Import ListNotations.

Local Open Scope Z_scope.

(** ** Data model ([types/hockey]) *)

Module Shot.
Record t : Type := mk {
  eventId : Z;
  period : Z;
  time : string;
  (* declared as the union of the four Corsi kinds; a string at run time *)
  type : string;
  x : Q;
  y : Q;
  shooterId : option Z;
  shooterName : option string;
  shotType : option string;
  xG : option Q
}.
End Shot.

Module CorsiFlowPoint.
Record t : Type := mk {
  period : Z;
  time : string;
  timeRemaining : string;
  type : string;
  homeCorsi : Z;
  awayCorsi : Z;
  differential : Z
}.
End CorsiFlowPoint.

(** The [team] tag that [generateCorsiFlow] spreads onto every shot. *)
Inductive Team : Type := home | away.

Module TeamShot.
Record t : Type := mk { shot : Shot.t; team : Team }.
End TeamShot.

(** ** Built-ins the code calls *)

(** [Array.prototype.includes] on an array of strings. *)
Definition includes (events : list string) (s : string) : bool :=
  existsb (String.eqb s) events.

(** [String.prototype.localeCompare], as the sign of the comparison.  The
    clock strings it is applied to are made of digits and a colon; it is
    embedded as the character-wise lexicographic order.  On two strings of
    the clock format (two digits, a colon, two digits) this is the order of
    every locale's collation, which compares the digits place by place; on
    strings of other shapes a collation may order differently, and the
    statements about the order of the flow are made for the clock format. *)
Definition localeCompare (a b : string) : Z :=
  match String.compare a b with
  | Lt => -1
  | Eq => 0
  | Gt => 1
  end.

(** [Array.prototype.sort] with a comparator.  The sort is stable, so with a
    consistent comparator its result is the one stable sorted arrangement,
    which insertion from the right computes: an element goes in front of the
    first later element that it does not exceed. *)
Section ArraySort.
Context {A : Type} (cmp : A -> A -> Z).

Fixpoint Array_insert (a : A) (l : list A) : list A :=
  match l with
  | [] => [a]
  | b :: l' => if cmp a b <=? 0 then a :: b :: l' else b :: Array_insert a l'
  end.

Fixpoint Array_sort (l : list A) : list A :=
  match l with
  | [] => []
  | a :: l' => Array_insert a (Array_sort l')
  end.
End ArraySort.

(** ** Possession metrics ([utils/statsCalculations]) *)

Definition CORSI_EVENTS : list string :=
  ["shot-on-goal"; "missed-shot"; "blocked-shot"; "goal"]%string.

Definition FENWICK_EVENTS : list string :=
  ["shot-on-goal"; "missed-shot"; "goal"]%string.

Definition calculateCorsiFor (shots : list Shot.t) : Z :=
  Z.of_nat (List.length (filter (fun shot => includes CORSI_EVENTS (Shot.type shot)) shots)).

Definition calculateCorsiPercent (corsiFor corsiAgainst : Q) : Q :=
  let total := (corsiFor + corsiAgainst)%Q in
  if Qeq_bool total 0 then 50%Q
  else ((corsiFor / total) * 100)%Q.

Definition calculateFenwickFor (shots : list Shot.t) : Z :=
  Z.of_nat (List.length (filter (fun shot => includes FENWICK_EVENTS (Shot.type shot)) shots)).

Definition calculateFenwickPercent (fenwickFor fenwickAgainst : Q) : Q :=
  let total := (fenwickFor + fenwickAgainst)%Q in
  if Qeq_bool total 0 then 50%Q
  else ((fenwickFor / total) * 100)%Q.

Definition calculatePDO (goalsFor shotsFor goalsAgainst shotsAgainst : Q) : Q :=
  let shootingPct :=
    if Qlt_le_dec 0 shotsFor then ((goalsFor / shotsFor) * 100)%Q else 0%Q in
  let savePct :=
    if Qlt_le_dec 0 shotsAgainst
    then (((shotsAgainst - goalsAgainst) / shotsAgainst) * 100)%Q
    else 100%Q in
  (shootingPct + savePct)%Q.

Definition calculateGoalsForPercent (goalsFor goalsAgainst : Q) : Q :=
  let total := (goalsFor + goalsAgainst)%Q in
  if Qeq_bool total 0 then 50%Q
  else ((goalsFor / total) * 100)%Q.

(** ** Corsi flow ([generateCorsiFlow]) *)

(** The comparator handed to [sort]: by period, then by clock string. *)
Definition compareShots (a b : TeamShot.t) : Z :=
  let pa := Shot.period (TeamShot.shot a) in
  let pb := Shot.period (TeamShot.shot b) in
  if negb (pa =? pb) then pa - pb
  else localeCompare (Shot.time (TeamShot.shot a)) (Shot.time (TeamShot.shot b)).

(** The [map] callback with its two captured counters, which it increments
    before it builds the point: the counters are threaded through the walk. *)
Fixpoint flowPoints (homeCorsi awayCorsi : Z) (shots : list TeamShot.t)
  : list CorsiFlowPoint.t :=
  match shots with
  | [] => []
  | shot :: rest =>
      let s := TeamShot.shot shot in
      let homeCorsi' :=
        match TeamShot.team shot with home => homeCorsi + 1 | away => homeCorsi end in
      let awayCorsi' :=
        match TeamShot.team shot with home => awayCorsi | away => awayCorsi + 1 end in
      CorsiFlowPoint.mk (Shot.period s) (Shot.time s) (Shot.time s) (Shot.type s)
        homeCorsi' awayCorsi' (homeCorsi' - awayCorsi')
      :: flowPoints homeCorsi' awayCorsi' rest
  end.

Definition allShots (homeShots awayShots : list Shot.t) : list TeamShot.t :=
  Array_sort compareShots
    (map (fun s => TeamShot.mk s home) homeShots
     ++ map (fun s => TeamShot.mk s away) awayShots).

Definition generateCorsiFlow (homeShots awayShots : list Shot.t)
  : list CorsiFlowPoint.t :=
  flowPoints 0 0
    (filter (fun shot => includes CORSI_EVENTS (Shot.type (TeamShot.shot shot)))
       (allShots homeShots awayShots)).

(** ** JavaScript numbers with NaN

    [Num a] is a finite number and [NaN] the not-a-number value, which every
    arithmetic operation propagates.  The clock helpers use it at [Z], the
    estimator at [R]. *)
Inductive number (A : Type) : Type :=
| NaN : number A
| Num : A -> number A.
Arguments NaN {A}.
Arguments Num {A} _.

Definition lift2 {A : Type} (f : A -> A -> A) (a b : number A) : number A :=
  match a, b with
  | Num m, Num n => Num (f m n)
  | _, _ => NaN
  end.

(** ** Clock strings ([utils/rinkCoordinates])  *)

(** [String.prototype.split] on a one-character separator: never empty. *)
Fixpoint split (sep : ascii) (s : string) : list string :=
  match s with
  | EmptyString => [EmptyString]
  | String c s' =>
      if Ascii.eqb c sep then EmptyString :: split sep s'
      else match split sep s' with
           | [] => [String c EmptyString]
           | part :: parts => String c part :: parts
           end
  end.

Definition digitValue (c : ascii) : option Z :=
  let n := N_of_ascii c in
  if ((48 <=? n) && (n <=? 57))%N then Some (Z.of_N (n - 48)) else None.

Fixpoint parseDigits (acc : Z) (s : string) : option Z :=
  match s with
  | EmptyString => Some acc
  | String c s' =>
      match digitValue c with
      | Some d => parseDigits (10 * acc + d) s'
      | None => None
      end
  end.

(** [Number(s)] on the strings of the clock format: a run of decimal digits
    is its value, leading zeros included, the empty string is 0, and a string
    with any other character converts to NaN.  [Number] also reads signs,
    fractions, exponents, radix prefixes, [Infinity] and surrounding blanks;
    these are not embedded, so the definition is that of the code on the
    fields made of digits and on the fields that are no numeric literal
    ([notNumeric] below), and the statements are made for those. *)
Definition Number (s : string) : number Z :=
  match parseDigits 0 s with
  | Some n => Num n
  | None => NaN
  end.

(** [Number.prototype.toString] on an integer, and on NaN. *)
Definition toString (n : number Z) : string :=
  match n with
  | NaN => "NaN"%string
  | Num z => DecimalString.NilZero.string_of_int (Z.to_int z)
  end.

Fixpoint repeatChar (n : nat) (c : ascii) : string :=
  match n with
  | O => EmptyString
  | S n' => String c (repeatChar n' c)
  end.

(** [String.prototype.padStart] with a one-character filler. *)
Definition padStart (targetLength : nat) (padString : ascii) (s : string) : string :=
  (repeatChar (targetLength - String.length s) padString ++ s)%string.

(** [const [minutes, seconds] = time.split(':').map(Number)]: a missing
    second element is [undefined], which the addition turns into NaN. *)
Definition timeToSeconds (time : string) (period : Z) : number Z :=
  let parts := map Number (split ":" time) in
  let minutes := nth 0 parts NaN in
  let seconds := nth 1 parts NaN in
  let periodSeconds := (period - 1) * 20 * 60 in
  lift2 Z.add (lift2 Z.add (Num periodSeconds) (lift2 Z.mul minutes (Num 60))) seconds.

(** [Math.floor(totalSeconds / 60)] is the floored quotient [Z.div]; [%]
    takes the sign of the dividend, as [Z.rem] does. *)
Definition secondsToTime (totalSeconds : number Z) : string :=
  let minutes := lift2 Z.div totalSeconds (Num 60) in
  let seconds := lift2 Z.rem totalSeconds (Num 60) in
  (padStart 2 "0" (toString minutes) ++ ":" ++ padStart 2 "0" (toString seconds))%string.

(** ** Attacking-zone normalisation ([utils/rinkCoordinates]) *)

Definition normalizeToAttackingZone (x y : Q) : Q * Q :=
  if Qlt_le_dec x 0 then ((- x)%Q, (- y)%Q) else (x, y).

(** ** Expected-goals estimator ([estimateXG]) *)

(** [String.prototype.toLowerCase] on the ASCII letters. *)
Definition lowerChar (c : ascii) : ascii :=
  let n := N_of_ascii c in
  if ((65 <=? n) && (n <=? 90))%N then ascii_of_N (n + 32) else c.

Fixpoint toLowerCase (s : string) : string :=
  match s with
  | EmptyString => EmptyString
  | String c s' => String (lowerChar c) (toLowerCase s')
  end.

(** What reading a property of [typeMultipliers] can give: nothing, one of
    the numbers of the table, or a function or object. *)
Inductive value : Type :=
| Undefined : value
| Number_ : R -> value
| Object : value.

(** The table is an object literal, so its prototype is [Object.prototype]:
    a key the literal does not define is looked up there, where these names
    are bound to functions ([__proto__] to the prototype object itself). *)
Definition Object_prototype : list string :=
  ["constructor"; "hasOwnProperty"; "isPrototypeOf"; "propertyIsEnumerable";
   "toLocaleString"; "toString"; "valueOf"; "__proto__";
   "__defineGetter__"; "__defineSetter__"; "__lookupGetter__";
   "__lookupSetter__"]%string.

Fixpoint ownProperty (table : list (string * R)) (key : string) : option R :=
  match table with
  | [] => None
  | (k, v) :: table' => if String.eqb key k then Some v else ownProperty table' key
  end.

Definition getProperty (table : list (string * R)) (key : string) : value :=
  match ownProperty table key with
  | Some v => Number_ v
  | None => if includes Object_prototype key then Object else Undefined
  end.

(** [v || 1.0]: the left operand when it is truthy. *)
Definition orElse (v : value) (d : R) : value :=
  match v with
  | Undefined => Number_ d
  | Number_ r => if Req_dec_T r 0 then Number_ d else Number_ r
  | Object => Object
  end.

(** The conversion [*=] applies to its right operand: a function or a plain
    object converts to NaN. *)
Definition ToNumber (v : value) : number R :=
  match v with
  | Undefined => NaN
  | Number_ r => Num r
  | Object => NaN
  end.

(** [Math.max] and [Math.min] return NaN when an argument is NaN. *)
Definition Math_max (a b : number R) : number R := lift2 Rmax a b.
Definition Math_min (a b : number R) : number R := lift2 Rmin a b.

(** [Math.atan2(y, x)]: the angle of the point (x, y), in (-PI, PI]. *)
Definition Math_atan2 (y x : R) : R :=
  if Rlt_dec 0 x then atan (y / x)
  else if Rlt_dec x 0 then
    (if Rle_dec 0 y then atan (y / x) + PI else atan (y / x) - PI)
  else if Rlt_dec 0 y then PI / 2
  else if Rlt_dec y 0 then - (PI / 2)
  else 0.

Definition typeMultipliers : list (string * R) :=
  [("slap"%string, 0.9%R); ("snap"%string, 1.1%R); ("wrist"%string, 1.0%R);
   ("backhand"%string, 0.8%R); ("tip-in"%string, 1.3%R);
   ("deflected"%string, 1.2%R); ("wrap-around"%string, 0.6%R)].

(** [if (shotType)] is false for a missing and for an empty string. *)
Definition estimateXG (x y : R) (shotType : option string) : number R :=
  let goalX := 89%R in
  let goalY := 0%R in
  let distance := sqrt ((Rabs x - goalX) ^ 2 + (y - goalY) ^ 2) in
  let angle := (Rabs (Math_atan2 y (goalX - Rabs x)) * (180 / PI))%R in
  let xG := Rmax 0 (0.4 - distance * 0.008) in
  let xG := (xG * (1 - (angle / 90) * 0.5))%R in
  let xG :=
    match shotType with
    | Some st =>
        if String.eqb st EmptyString then Num xG
        else lift2 Rmult (Num xG)
               (ToNumber (orElse (getProperty typeMultipliers (toLowerCase st)) 1.0))
    | None => Num xG
    end in
  Math_min (Math_max xG (Num 0.01%R)) (Num 0.95%R).

(** ** Statements of the specification, for comparison *)

(** The formula in the words of the specification: each term falls back to
    its default when the shot count is equal to zero. *)
Definition pdo_as_stated (goalsFor shotsFor goalsAgainst shotsAgainst : Q) : Q :=
  ((if Qeq_bool shotsFor 0 then 0 else goalsFor / shotsFor * 100)
   + (if Qeq_bool shotsAgainst 0 then 100
      else (shotsAgainst - goalsAgainst) / shotsAgainst * 100))%Q.

(** The normalisation applied twice. *)
Definition normalizeTwice (x y : Q) : Q * Q :=
  let p := normalizeToAttackingZone x y in
  normalizeToAttackingZone (fst p) (snd p).

(** The format of a clock string: two digits, a colon, two digits. *)
Definition isDigit (c : ascii) : bool :=
  match digitValue c with Some _ => true | None => false end.

Definition clockFormat (t : string) : bool :=
  match t with
  | String m1 (String m2 (String c (String s1 (String s2 EmptyString)))) =>
      isDigit m1 && isDigit m2 && Ascii.eqb c ":" && isDigit s1 && isDigit s2
  | _ => false
  end.

Definition digitOrZero (c : ascii) : Z :=
  match digitValue c with Some d => d | None => 0 end.

(** The minutes and the seconds a clock string shows. *)
Definition clockMinutes (t : string) : Z :=
  match t with
  | String m1 (String m2 _) => 10 * digitOrZero m1 + digitOrZero m2
  | _ => 0
  end.

Definition clockSeconds (t : string) : Z :=
  match t with
  | String _ (String _ (String _ (String s1 (String s2 _)))) =>
      10 * digitOrZero s1 + digitOrZero s2
  | _ => 0
  end.

(** A well-formed clock reading has the format, and at most 59 seconds. *)
Definition wellFormedClock (t : string) : bool :=
  clockFormat t && (clockSeconds t <=? 59).

(** All the strings of the format, from 00:00 to 99:99. *)
Definition digits : list ascii :=
  ["0"; "1"; "2"; "3"; "4"; "5"; "6"; "7"; "8"; "9"]%char.

Definition clockOf (m1 m2 s1 s2 : ascii) : string :=
  String m1 (String m2 (String ":" (String s1 (String s2 EmptyString)))).

Definition allClocks : list string :=
  flat_map (fun m1 =>
    flat_map (fun m2 =>
      flat_map (fun s1 => map (fun s2 => clockOf m1 m2 s1 s2) digits) digits)
      digits)
    digits.

Definition number_eqb (a b : number Z) : bool :=
  match a, b with
  | NaN, NaN => true
  | Num m, Num n => m =? n
  | _, _ => false
  end.

(** What is checked of each of them: its two fields convert to the minutes
    and the seconds it shows and, when it is a well-formed reading, the
    clock is printed back at period 1. *)
Definition clockChecks (t : string) : bool :=
  match map Number (split ":" t) with
  | [minutes; seconds] =>
      number_eqb minutes (Num (clockMinutes t))
      && number_eqb seconds (Num (clockSeconds t))
  | _ => false
  end
  && (if wellFormedClock t
      then String.eqb (secondsToTime (timeToSeconds t 1)) t
      else true).

(** How a call completes: with a value, or by throwing. *)
Inductive completion (A : Type) : Type :=
| Normal : A -> completion A
| Throw : string -> completion A.
Arguments Normal {A} _.
Arguments Throw {A} _.

Definition bind {A B : Type} (c : completion A) (k : A -> completion B)
  : completion B :=
  match c with
  | Normal a => k a
  | Throw e => Throw e
  end.

(** What a caller can hand over as [time]: the declared string or, the
    types being erased at run time, nothing, null or a number. *)
Inductive argument : Type :=
| ArgUndefined : argument
| ArgNull : argument
| ArgNumber : number Z -> argument
| ArgString : string -> argument.

(** [time.split(sep)]: reading [split] of undefined or of null is a
    TypeError, and so is calling it on a number, which has no such method;
    on a string the call returns the fields. *)
Definition split_call (time : argument) (sep : ascii)
  : completion (list string) :=
  match time with
  | ArgString s => Normal (split sep s)
  | _ => Throw "TypeError"
  end.

(** The call of [timeToSeconds] with its completion.  The body has no
    [throw] statement; after [split], the steps [map(Number)], the
    destructuring and the arithmetic complete normally on whatever strings
    they are given. *)
Definition timeToSeconds_completion (time : argument) (period : Z)
  : completion (number Z) :=
  bind (split_call time ":") (fun fields =>
    let parts := map Number fields in
    let minutes := nth 0 parts NaN in
    let seconds := nth 1 parts NaN in
    let periodSeconds := (period - 1) * 20 * 60 in
    Normal (lift2 Z.add
              (lift2 Z.add (Num periodSeconds) (lift2 Z.mul minutes (Num 60)))
              seconds)).

(** Fields that are no numeric literal.  A string that [Number] converts to
    a number is, between optional blanks, a decimal literal with optional
    sign, point and exponent, [Infinity] with optional sign, or a binary,
    octal or hexadecimal literal with its prefix.  So it begins with a
    blank, a sign, a digit, a point or the letter I, and its ASCII
    characters are blanks, digits, [+ - .] and the letters of [Infinity],
    of the exponent, of the prefixes and of the hexadecimal digits. *)
Definition isBlank (c : ascii) : bool :=
  let n := N_of_ascii c in
  (((9 <=? n) && (n <=? 13)) || (n =? 32))%N.

Definition isLetter (c : ascii) : bool :=
  let n := N_of_ascii c in
  (((65 <=? n) && (n <=? 90)) || ((97 <=? n) && (n <=? 122)))%N.

Definition cannotBeginNumber (c : ascii) : bool :=
  isLetter c && negb (Ascii.eqb c "I").

Definition literalLetters : list ascii :=
  ["I"; "n"; "f"; "i"; "t"; "y"; "e"; "E"; "x"; "X"; "o"; "O"; "b"; "B";
   "a"; "A"; "c"; "C"; "d"; "D"; "F"]%char.

Definition inNoNumber (c : ascii) : bool :=
  (N_of_ascii c <? 128)%N
  && negb (isBlank c) && negb (isDigit c)
  && negb (Ascii.eqb c "+") && negb (Ascii.eqb c "-") && negb (Ascii.eqb c ".")
  && negb (existsb (Ascii.eqb c) literalLetters).

Fixpoint anyChar (p : ascii -> bool) (s : string) : bool :=
  match s with
  | EmptyString => false
  | String c s' => p c || anyChar p s'
  end.

Definition notNumeric (field : string) : bool :=
  match field with
  | EmptyString => false
  | String c _ => cannotBeginNumber c
  end
  || anyChar inNoNumber field.

(** The order of two flow points by period and then by clock string, with
    and without ties. *)
Definition flowStrictlyBefore (p q : CorsiFlowPoint.t) : Prop :=
  CorsiFlowPoint.period p < CorsiFlowPoint.period q
  \/ (CorsiFlowPoint.period p = CorsiFlowPoint.period q
      /\ localeCompare (CorsiFlowPoint.time p) (CorsiFlowPoint.time q) < 0).

Definition flowNotAfter (p q : CorsiFlowPoint.t) : Prop :=
  CorsiFlowPoint.period p < CorsiFlowPoint.period q
  \/ (CorsiFlowPoint.period p = CorsiFlowPoint.period q
      /\ localeCompare (CorsiFlowPoint.time p) (CorsiFlowPoint.time q) <= 0).

Definition countersNotAbove (p q : CorsiFlowPoint.t) : Prop :=
  CorsiFlowPoint.homeCorsi p <= CorsiFlowPoint.homeCorsi q
  /\ CorsiFlowPoint.awayCorsi p <= CorsiFlowPoint.awayCorsi q.

Definition differentialIsDifference (p : CorsiFlowPoint.t) : Prop :=
  CorsiFlowPoint.differential p
  = CorsiFlowPoint.homeCorsi p - CorsiFlowPoint.awayCorsi p.

(** How many shots of a tagged list are the home side's, and the away
    side's. *)
Definition isHome (s : TeamShot.t) : bool :=
  match TeamShot.team s with home => true | away => false end.

Definition isAway (s : TeamShot.t) : bool := negb (isHome s).

Definition homeCount (l : list TeamShot.t) : Z :=
  Z.of_nat (List.length (filter isHome l)).

Definition awayCount (l : list TeamShot.t) : Z :=
  Z.of_nat (List.length (filter isAway l)).

Definition isCorsiShot (shot : TeamShot.t) : bool :=
  includes CORSI_EVENTS (Shot.type (TeamShot.shot shot)).

(** No capital ASCII letter occurs in the string. *)
Fixpoint noCapital (s : string) : bool :=
  match s with
  | EmptyString => true
  | String c s' =>
      negb ((65 <=? N_of_ascii c) && (N_of_ascii c <=? 90))%N && noCapital s'
  end.

(** ** Further statements about the metrics *)

Definition isBlocked (shot : Shot.t) : bool :=
  String.eqb (Shot.type shot) "blocked-shot".

Definition blockedCount (shots : list Shot.t) : Z :=
  Z.of_nat (List.length (filter isBlocked shots)).

(** 2^53: up to here every whole number is a double. *)
Definition wholeDoubles : Q := 9007199254740992.

(** ** Rolling average ([rollingAverage]) *)

(** [Array.prototype.slice(start, end)] for a start that is not negative:
    the elements from index [start] up to, not including, [end], as far as
    the array goes, and none when [end <= start]. *)
Definition slice {A : Type} (start end_ : Z) (l : list A) : list A :=
  firstn (Z.to_nat (end_ - start)) (skipn (Z.to_nat start) l).

(** [slice.reduce((a, b) => a + b, 0) / slice.length]: the sum of no
    element is 0, and 0 / 0 is NaN. *)
Definition averageOf (slice : list Q) : number Q :=
  match List.length slice with
  | O => NaN
  | S _ =>
      Num (fold_left Qplus slice 0 / inject_Z (Z.of_nat (List.length slice)))%Q
  end.

(** The body of the loop at index [i]. *)
Definition rollingStep (data : list Q) (window i : Z) : number Q :=
  let start := Z.max 0 (i - window + 1) in
  averageOf (slice start (i + 1) data).

(** The [for] loop, from index [i] for the [steps] indices that remain, with
    the array [result] it pushes to. *)
Fixpoint rollingLoop (data : list Q) (window i : Z) (steps : nat)
    (result : list (number Q)) : list (number Q) :=
  match steps with
  | O => result
  | S steps' =>
      rollingLoop data window (i + 1) steps' (result ++ [rollingStep data window i])
  end.

Definition rollingAverage (data : list Q) (window : Z) : list (number Q) :=
  rollingLoop data window 0 (List.length data) [].

(** The indices [i], [i+1], ... the loop goes through. *)
Fixpoint indices (i : Z) (steps : nat) : list Z :=
  match steps with
  | O => []
  | S steps' => i :: indices (i + 1) steps'
  end.

(** ** Rink geometry and the shot map *)

(** The constants of [RINK] that the code reads. *)
Module RINK.
Definition WIDTH : Q := 200.
Definition HEIGHT : Q := 85.
Definition SVG_WIDTH : Q := 800.
Definition SVG_HEIGHT : Q := 340.
Definition GOAL_LINE : Q := 89.
End RINK.

Definition nhlToSvg (x y : Q) : Q * Q :=
  let svgX := ((x + 100) / 200 * RINK.SVG_WIDTH)%Q in
  let svgY := ((y + 42.5) / 85 * RINK.SVG_HEIGHT)%Q in
  (svgX, svgY).

Definition getShotColor (type : string) : string :=
  if String.eqb type "goal" then "var(--color-chart-goal)"
  else if String.eqb type "shot-on-goal" then "var(--color-chart-shot)"
  else if String.eqb type "missed-shot" then "var(--color-chart-miss)"
  else if String.eqb type "blocked-shot" then "var(--color-chart-block)"
  else "var(--color-chart-miss)".

Definition getShotRadius (type : string) : Q :=
  if String.eqb type "goal" then 8 else 5.

(** [{ ...shot, x, y }]: the shot with its two coordinates replaced. *)
Definition withCoordinates (shot : Shot.t) (x y : Q) : Shot.t :=
  Shot.mk (Shot.eventId shot) (Shot.period shot) (Shot.time shot)
    (Shot.type shot) x y (Shot.shooterId shot) (Shot.shooterName shot)
    (Shot.shotType shot) (Shot.xG shot).

(** The data that [ShotMap] draws: the shots flipped to the right side for
    the half rink, and of those the ones with [x >= 0]. *)
Definition shotMapWidth (showHalfRink : bool) : Q :=
  if showHalfRink then (RINK.SVG_WIDTH / 2)%Q else RINK.SVG_WIDTH.

Definition normalizedShots (showHalfRink : bool) (shots : list Shot.t)
  : list Shot.t :=
  map (fun shot =>
         if showHalfRink then
           let x := if Qlt_le_dec (Shot.x shot) 0
                    then (- Shot.x shot)%Q else Shot.x shot in
           let y := if Qlt_le_dec (Shot.x shot) 0
                    then (- Shot.y shot)%Q else Shot.y shot in
           withCoordinates shot x y
         else shot)
    shots.

Definition visibleShots (showHalfRink : bool) (shots : list Shot.t)
  : list Shot.t :=
  if showHalfRink
  then filter (fun s => Qle_bool 0 (Shot.x s)) (normalizedShots showHalfRink shots)
  else normalizedShots showHalfRink shots.

(** The centre of the circle drawn for a shot. *)
Definition shotCx (showHalfRink : bool) (d : Shot.t) : Q :=
  if showHalfRink then (Shot.x d / 100 * shotMapWidth showHalfRink)%Q
  else fst (nhlToSvg (Shot.x d) (Shot.y d)).

Definition shotCy (d : Shot.t) : Q := snd (nhlToSvg 0 (Shot.y d)).

(** ** Further statements about the clock *)

(** What is checked of each total of seconds below 100 minutes: it prints as
    a well-formed clock reading that shows that many seconds. *)
Definition secondsChecks (n : Z) : bool :=
  let t := secondsToTime (Num n) in
  wellFormedClock t && (clockMinutes t * 60 + clockSeconds t =? n).

Definition allSeconds : list Z := map Z.of_nat (seq 0 (Z.to_nat 6000)).

(** The absolute time of a shot and of a flow point, and the order of two
    such times when both are numbers. *)
Definition shotSeconds (s : Shot.t) : number Z :=
  timeToSeconds (Shot.time s) (Shot.period s).

Definition flowSeconds (p : CorsiFlowPoint.t) : number Z :=
  timeToSeconds (CorsiFlowPoint.time p) (CorsiFlowPoint.period p).

Definition notLater (a b : number Z) : Prop :=
  match a, b with
  | Num m, Num n => m <= n
  | _, _ => False
  end.

(** A clock reading within a period of 20 minutes. *)
Definition inPeriodClock (t : string) : bool :=
  wellFormedClock t && (clockMinutes t <? 20).

(** ** Further statements about the flow *)

(** What identifies an event in the flow: its period, clock and type. *)
Definition shotKey (s : Shot.t) : Z * string * string :=
  (Shot.period s, Shot.time s, Shot.type s).

Definition pointKey (p : CorsiFlowPoint.t) : Z * string * string :=
  (CorsiFlowPoint.period p, CorsiFlowPoint.time p, CorsiFlowPoint.type p).

Definition isCorsi (s : Shot.t) : bool := includes CORSI_EVENTS (Shot.type s).

(** From one point to the next exactly one of the two counters goes up, by
    one. *)
Definition oneMoreEvent (h a : Z) (q : CorsiFlowPoint.t) : Prop :=
  (CorsiFlowPoint.homeCorsi q = h + 1 /\ CorsiFlowPoint.awayCorsi q = a)
  \/ (CorsiFlowPoint.homeCorsi q = h /\ CorsiFlowPoint.awayCorsi q = a + 1).

(** ** The player radar ([PlayerRadar]) *)

Module PlayerComparisonData.
Record t : Type := mk {
  name : string;
  goals : Q;
  assists : Q;
  points : Q;
  shots : Q;
  plusMinus : Q;
  toi : Q
}.
End PlayerComparisonData.

Definition normalizeValue (value max : Q) : Q :=
  Qmin (value / max * 100) 100.

Module maxValues.
Definition goals : Q := 60.
Definition assists : Q := 80.
Definition points : Q := 130.
Definition shots : Q := 350.
Definition plusMinus : Q := 50.
Definition toi : Q := 25.
End maxValues.

Definition normalizePlayer (player : PlayerComparisonData.t) : list Q :=
  [ normalizeValue (PlayerComparisonData.goals player) maxValues.goals;
    normalizeValue (PlayerComparisonData.assists player) maxValues.assists;
    normalizeValue (PlayerComparisonData.points player) maxValues.points;
    normalizeValue (PlayerComparisonData.shots player) maxValues.shots;
    normalizeValue (Qabs (PlayerComparisonData.plusMinus player) + 25)
      maxValues.plusMinus;
    normalizeValue (PlayerComparisonData.toi player) maxValues.toi ].

(** The player with another plus/minus. *)
Definition withPlusMinus (player : PlayerComparisonData.t) (pm : Q)
  : PlayerComparisonData.t :=
  PlayerComparisonData.mk
    (PlayerComparisonData.name player) (PlayerComparisonData.goals player)
    (PlayerComparisonData.assists player) (PlayerComparisonData.points player)
    (PlayerComparisonData.shots player) pm (PlayerComparisonData.toi player).

(** ** Play-by-play on the server ([services/nhlApi], [routes/stats]) *)

Module Details.
Record t : Type := mk {
  xCoord : option Q;
  yCoord : option Q;
  shootingPlayerId : option Z;
  goalieInNetId : option Z;
  shotType : option string;
  scoringPlayerId : option Z;
  assist1PlayerId : option Z;
  assist2PlayerId : option Z
}.
End Details.

Module Play.
Record t : Type := mk {
  eventId : Z;
  periodNumber : Z;        (* periodDescriptor.number *)
  timeInPeriod : string;
  timeRemaining : string;
  situationCode : string;
  typeDescKey : string;
  typeCode : Z;
  details : option Details.t
}.
End Play.

(** [play.details?.field]: undefined when the details are missing. *)
Definition detail {A : Type} (field : Details.t -> option A) (play : Play.t)
  : option A :=
  match Play.details play with
  | Some d => field d
  | None => None
  end.

(** [a || b] on optional player ids: [a] when it is defined and not 0. *)
Definition orId (a b : option Z) : option Z :=
  match a with
  | Some n => if n =? 0 then b else Some n
  | None => b
  end.

Definition isDefined {A : Type} (v : option A) : bool :=
  match v with Some _ => true | None => false end.

Definition shotTypes : list string :=
  ["shot-on-goal"; "missed-shot"; "blocked-shot"; "goal"]%string.

(** [extractShots]: the plays of the four shot types that carry both
    coordinates, as shots.  The second filter makes the two non-null
    assertions of the [map] safe; the default 0 below is never used. *)
Definition extractShots (plays : list Play.t) (teamAbbrev : option string)
  : list Shot.t :=
  map (fun play =>
         Shot.mk (Play.eventId play) (Play.periodNumber play)
           (Play.timeInPeriod play) (Play.typeDescKey play)
           (match detail Details.xCoord play with Some x => x | None => 0%Q end)
           (match detail Details.yCoord play with Some y => y | None => 0%Q end)
           (orId (detail Details.shootingPlayerId play)
                 (detail Details.scoringPlayerId play))
           None
           (detail Details.shotType play)
           None)
    (filter (fun play => isDefined (detail Details.xCoord play)
                         && isDefined (detail Details.yCoord play))
       (filter (fun play => includes shotTypes (Play.typeDescKey play)) plays)).

(** The flow point of the route [/corsi/:gameId]. *)
Module ServerFlowPoint.
Record t : Type := mk {
  period : Z;
  time : string;
  timeRemaining : string;
  type : string;
  situationCode : string;
  homeCorsi : Z;
  awayCorsi : Z;
  differential : Z
}.
End ServerFlowPoint.

(** The [map] callback of the route with its index and its two captured
    counters: an even index counts for the home side, an odd one for the
    away side.  The walk returns the points and the counters it ends with. *)
Fixpoint serverFlow (homeCorsi awayCorsi index : Z) (events : list Play.t)
  : list ServerFlowPoint.t * (Z * Z) :=
  match events with
  | [] => ([], (homeCorsi, awayCorsi))
  | event :: rest =>
      let homeCorsi' := if Z.rem index 2 =? 0 then homeCorsi + 1 else homeCorsi in
      let awayCorsi' := if Z.rem index 2 =? 0 then awayCorsi else awayCorsi + 1 in
      let point :=
        ServerFlowPoint.mk (Play.periodNumber event) (Play.timeInPeriod event)
          (Play.timeRemaining event) (Play.typeDescKey event)
          (Play.situationCode event)
          homeCorsi' awayCorsi' (homeCorsi' - awayCorsi') in
      let (points, final) := serverFlow homeCorsi' awayCorsi' (index + 1) rest in
      (point :: points, final)
  end.

Module CorsiData.
Record t : Type := mk {
  homeCorsi : Z;
  awayCorsi : Z;
  corsiFor : Z;
  corsiAgainst : Z;
  corsiPercent : number Q;
  flow : list ServerFlowPoint.t
}.
End CorsiData.

(** The body that the route sends.  [homeCorsi / (homeCorsi + awayCorsi)]
    is 0 / 0, so NaN, when there is no event; the counters are never
    negative, so no other division by zero occurs. *)
Definition corsiRoute (plays : list Play.t) : CorsiData.t :=
  let events :=
    filter (fun play => includes shotTypes (Play.typeDescKey play)) plays in
  let (corsiFlow, final) := serverFlow 0 0 0 events in
  let (homeCorsi, awayCorsi) := final in
  CorsiData.mk homeCorsi awayCorsi homeCorsi awayCorsi
    (if homeCorsi + awayCorsi =? 0 then NaN
     else Num (inject_Z homeCorsi / inject_Z (homeCorsi + awayCorsi) * 100)%Q)
    corsiFlow.

(** ** The ratio functions in binary64 *)

(** The same functions of [utils/statsCalculations] with the arithmetic of
    the code: every [+], [-], [*] and [/] is the rounded operation of
    binary64, [===] and [>] are its comparisons. *)
Module Double.
Local Open Scope float_scope.

Definition calculateCorsiPercent (corsiFor corsiAgainst : float) : float :=
  let total := corsiFor + corsiAgainst in
  if total =? 0 then 50
  else (corsiFor / total) * 100.

Definition calculateFenwickPercent (fenwickFor fenwickAgainst : float) : float :=
  let total := fenwickFor + fenwickAgainst in
  if total =? 0 then 50
  else (fenwickFor / total) * 100.

Definition calculatePDO (goalsFor shotsFor goalsAgainst shotsAgainst : float)
  : float :=
  let shootingPct := if 0 <? shotsFor then (goalsFor / shotsFor) * 100 else 0 in
  let savePct :=
    if 0 <? shotsAgainst
    then ((shotsAgainst - goalsAgainst) / shotsAgainst) * 100
    else 100 in
  shootingPct + savePct.

Definition calculateGoalsForPercent (goalsFor goalsAgainst : float) : float :=
  let total := goalsFor + goalsAgainst in
  if total =? 0 then 50
  else (goalsFor / total) * 100.

(** The formula of PDO in the words of the specification, each term with
    its default when the shot count is equal to zero. *)
Definition pdo_as_stated (goalsFor shotsFor goalsAgainst shotsAgainst : float)
  : float :=
  (if shotsFor =? 0 then 0 else goalsFor / shotsFor * 100)
  + (if shotsAgainst =? 0 then 100
     else (shotsAgainst - goalsAgainst) / shotsAgainst * 100).
End Double.

(** The rational number that a finite double is; none for NaN and the
    infinities. *)
Definition exactValue (x : float) : option Q :=
  match Prim2SF x with
  | S754_zero _ => Some 0%Q
  | S754_finite s m e =>
      Some ((if s then -1 else 1) * inject_Z (Zpos m) * Qpower 2 e)%Q
  | _ => None
  end.

(** A whole count as a double. *)
Definition ofCount (n : Z) : float := PrimFloat.of_uint63 (Uint63.of_Z n).

(** The largest count per side for which the rounding of the percentage is
    bounded below, and the bound. *)
Definition maxCount : Z := 150.

Definition roundingBound : Q := 1 # 10000000000000.

(** What is checked of each pair of counts: the percentage the code
    computes is a finite double within the bound of the exact ratio. *)
Definition percentCheck (f a : Z) : bool :=
  if f + a =? 0 then true
  else match exactValue (Double.calculateCorsiPercent (ofCount f) (ofCount a)) with
       | Some q =>
           Qle_bool (Qabs (q - 100 * inject_Z f / inject_Z (f + a))) roundingBound
       | None => false
       end.

Definition countsUpTo (n : Z) : list Z :=
  map Z.of_nat (seq 0 (Z.to_nat n + 1)).

(** * Properties *)

(** ** Corsi and Fenwick counts *)

Lemma fenwick_is_corsi (s : string) :
  includes FENWICK_EVENTS s = true -> includes CORSI_EVENTS s = true.
Proof.
  unfold includes, FENWICK_EVENTS, CORSI_EVENTS; simpl.
  destruct (String.eqb s "shot-on-goal"), (String.eqb s "missed-shot"),
    (String.eqb s "goal"), (String.eqb s "blocked-shot"); simpl; congruence.
Qed.

Lemma filter_length_le {A : Type} (p q : A -> bool) (l : list A) :
  (forall a, p a = true -> q a = true) ->
  (List.length (filter p l) <= List.length (filter q l))%nat.
Proof.
  intros Hpq; induction l as [|a l IH]; simpl; [lia|].
  destruct (p a) eqn:Hp.
  - rewrite (Hpq a Hp); simpl; lia.
  - destruct (q a); simpl; lia.
Qed.

(** C3. For every finite list of shot events, the Fenwick count is at most
    the Corsi count. *)
Theorem fenwick_le_corsi (events : list Shot.t) :
  calculateFenwickFor events <= calculateCorsiFor events.
Proof.
  unfold calculateFenwickFor, calculateCorsiFor.
  apply Nat2Z.inj_le, filter_length_le.
  intros a; apply fenwick_is_corsi.
Qed.

(** A blocked shot is what separates the two counts. *)
Example fenwick_lt_corsi_blocked :
  let blocked := Shot.mk 1 1 "05:00" "blocked-shot" 0 0 None None None None in
  calculateFenwickFor [blocked] = 0 /\ calculateCorsiFor [blocked] = 1.
Proof. split; reflexivity. Qed.

(** ** Percentages *)

(** In binary64 the quotient is rounded before it is multiplied by 100, and
    the product is rounded again. *)
Lemma exactValue_of_7_93 :
  exactValue (Double.calculateCorsiPercent 7 93)
  = Some (7881299347898369 # 1125899906842624).
Proof. vm_compute; reflexivity. Qed.

(** C4, as stated, fails: for 7 events against 93 the code returns the
    double next above 7, 7.000000000000001, and not 100 * 7 / (7 + 93). *)
Lemma percent_7_of_100_is_not_7 :
  exists q : Q,
    exactValue (Double.calculateCorsiPercent 7 93) = Some q
    /\ ~ (q == 100 * 7 / (7 + 93))%Q.
Proof.
  eexists; split; [apply exactValue_of_7_93|].
  intros H; vm_compute in H; discriminate H.
Qed.

Lemma count_in_countsUpTo (n k : Z) : 0 <= k <= n -> In k (countsUpTo n).
Proof.
  intros H; unfold countsUpTo; apply in_map_iff.
  exists (Z.to_nat k); split; [lia|]. apply in_seq; split; lia.
Qed.

Lemma allPercentChecks_hold :
  forallb (fun f => forallb (percentCheck f) (countsUpTo maxCount))
    (countsUpTo maxCount) = true.
Proof. vm_compute; reflexivity. Qed.

Lemma percentCheck_holds (f a : Z) :
  0 <= f <= maxCount -> 0 <= a <= maxCount -> percentCheck f a = true.
Proof.
  intros Hf Ha.
  pose proof (proj1 (forallb_forall _ _) allPercentChecks_hold f
                (count_in_countsUpTo _ _ Hf)) as C.
  exact (proj1 (forallb_forall _ _) C a (count_in_countsUpTo _ _ Ha)).
Qed.

Lemma percent_of_counts (f a : Z) :
  0 <= f <= maxCount -> 0 <= a <= maxCount -> 0 < f + a ->
  exists q : Q,
    exactValue (Double.calculateCorsiPercent (ofCount f) (ofCount a)) = Some q
    /\ (Qabs (q - 100 * inject_Z f / inject_Z (f + a)) <= roundingBound)%Q.
Proof.
  intros Hf Ha Hs.
  pose proof (percentCheck_holds f a Hf Ha) as C.
  unfold percentCheck in C.
  destruct (Z.eqb_spec (f + a) 0) as [E|_]; [lia|].
  destruct (exactValue (Double.calculateCorsiPercent (ofCount f) (ofCount a)))
    as [q|]; [|discriminate C].
  exists q; split; [reflexivity|]. apply Qle_bool_iff, C.
Qed.

(** C4, amended.  Each of the two percentages is exactly 50 when the two
    counts sum to 0, in particular at (0, 0); otherwise it is the double
    (for / (for + against)) * 100, which is 100 * for / (for + against) up
    to rounding: for whole counts of up to 150 a side the two differ by at
    most 10^-13. *)
Theorem percent_tie_break_and_rounded_ratio :
  (forall f a : float,
      PrimFloat.eqb (PrimFloat.add f a) 0 = true ->
      Double.calculateCorsiPercent f a = 50%float
      /\ Double.calculateGoalsForPercent f a = 50%float)
  /\ (forall f a : float,
         PrimFloat.eqb (PrimFloat.add f a) 0 = false ->
         Double.calculateCorsiPercent f a
         = PrimFloat.mul (PrimFloat.div f (PrimFloat.add f a)) 100
         /\ Double.calculateGoalsForPercent f a
            = PrimFloat.mul (PrimFloat.div f (PrimFloat.add f a)) 100)
  /\ (forall f a : Z,
         0 <= f <= maxCount -> 0 <= a <= maxCount -> 0 < f + a ->
         exists q : Q,
           exactValue (Double.calculateCorsiPercent (ofCount f) (ofCount a))
           = Some q
           /\ exactValue (Double.calculateGoalsForPercent (ofCount f) (ofCount a))
              = Some q
           /\ (Qabs (q - 100 * inject_Z f / inject_Z (f + a))
               <= roundingBound)%Q)
  /\ Double.calculateCorsiPercent 0 0 = 50%float
  /\ Double.calculateGoalsForPercent 0 0 = 50%float.
Proof.
  split; [|split; [|split; [|split; reflexivity]]].
  - intros f a H.
    unfold Double.calculateCorsiPercent, Double.calculateGoalsForPercent.
    cbv zeta; rewrite H; split; reflexivity.
  - intros f a H.
    unfold Double.calculateCorsiPercent, Double.calculateGoalsForPercent.
    cbv zeta; rewrite H; split; reflexivity.
  - intros f a Hf Ha Hs.
    destruct (percent_of_counts f a Hf Ha Hs) as [q [E B]].
    exists q; repeat split; assumption.
Qed.

Lemma percent_tie_break_and_rounded_ratio_witness :
  Double.calculateCorsiPercent 31 (-31) = 50%float
  /\ Double.calculateCorsiPercent 1 3 = 25%float
  /\ exists q : Q,
       exactValue (Double.calculateCorsiPercent (ofCount 7) (ofCount 93))
       = Some q
       /\ exactValue (Double.calculateGoalsForPercent (ofCount 7) (ofCount 93))
          = Some q
       /\ (Qabs (q - 100 * inject_Z 7 / inject_Z (7 + 93)) <= roundingBound)%Q.
Proof.
  split; [|split].
  - apply (proj1 percent_tie_break_and_rounded_ratio 31%float (-31)%float).
    reflexivity.
  - rewrite (proj1 (proj1 (proj2 percent_tie_break_and_rounded_ratio)
                      1%float 3%float eq_refl)).
    reflexivity.
  - apply (proj1 (proj2 (proj2 percent_tie_break_and_rounded_ratio)) 7 93);
      unfold maxCount; lia.
Defined.

(** Over the rationals, without rounding, the two expressions agree. *)
Lemma percent_value (f a : Q) :
  ~ (f + a == 0)%Q -> ((f / (f + a)) * 100 == 100 * f / (f + a))%Q.
Proof. intros H; field; exact H. Qed.

Example percent_one_of_four : (calculateCorsiPercent 1 3 == 25)%Q.
Proof. reflexivity. Qed.

(** ** PDO *)

(** The guards of the code are [shotsFor > 0] and [shotsAgainst > 0]: each
    term is its quotient when the shot count is positive and its default
    otherwise. *)
Lemma pdo_sum_of_guarded_terms (gf sf ga sa : Q) :
  (exists shootingPct savePct : Q,
      calculatePDO gf sf ga sa = (shootingPct + savePct)%Q
      /\ ((0 < sf /\ shootingPct = gf / sf * 100)
          \/ (sf <= 0 /\ shootingPct = 0))%Q
      /\ ((0 < sa /\ savePct = (sa - ga) / sa * 100)
          \/ (sa <= 0 /\ savePct = 100))%Q)
  /\ calculatePDO 0 0 0 0 = 100%Q.
Proof.
  split; [|reflexivity].
  unfold calculatePDO; cbv zeta.
  destruct (Qlt_le_dec 0 sf) as [Hsf|Hsf], (Qlt_le_dec 0 sa) as [Hsa|Hsa];
    eexists; eexists; (split; [reflexivity|]); split; auto.
Qed.

(** On shot counts that are not negative the stated formula is what the code
    computes. *)
Lemma pdo_as_stated_nonneg (gf sf ga sa : Q) :
  (0 <= sf)%Q -> (0 <= sa)%Q ->
  (calculatePDO gf sf ga sa == pdo_as_stated gf sf ga sa)%Q.
Proof.
  intros Hsf Hsa; unfold calculatePDO, pdo_as_stated; cbv zeta.
  assert (G : forall q : Q, (0 <= q)%Q ->
            (if Qlt_le_dec 0 q then false else true) = Qeq_bool q 0).
  { intros q Hq; destruct (Qlt_le_dec 0 q) as [H|H]; symmetry.
    - apply not_true_is_false; intros E; apply Qeq_bool_eq in E.
      rewrite E in H; exact (Qlt_irrefl _ H).
    - apply Qeq_bool_iff, Qle_antisym; assumption. }
  pose proof (G sf Hsf) as G1; pose proof (G sa Hsa) as G2.
  destruct (Qlt_le_dec 0 sf), (Qlt_le_dec 0 sa);
    rewrite <- G1, <- G2; reflexivity.
Qed.

(** C5.  For shot counts, which are not negative, PDO is the sum of the
    shooting percentage, goalsFor / shotsFor * 100, or 0 when shotsFor is
    0, and the save percentage, (shotsAgainst - goalsAgainst) /
    shotsAgainst * 100, or 100 when shotsAgainst is 0; and pdo(0,0,0,0) is
    100.  The stated terms are the code's own operations in the code's
    order, so nothing is re-associated; [pdo_as_stated_in_binary64] below
    is the same equation between doubles. *)
Theorem pdo_is_shooting_plus_save (gf sf ga sa : Q) :
  (0 <= sf)%Q -> (0 <= sa)%Q ->
  (calculatePDO gf sf ga sa == pdo_as_stated gf sf ga sa)%Q
  /\ calculatePDO 0 0 0 0 = 100%Q.
Proof.
  intros Hsf Hsa; split; [apply pdo_as_stated_nonneg; assumption|reflexivity].
Qed.

Lemma pdo_is_shooting_plus_save_witness :
  (calculatePDO 3 30 2 25 == pdo_as_stated 3 30 2 25)%Q
  /\ (calculatePDO 0 0 2 25 == pdo_as_stated 0 0 2 25)%Q.
Proof.
  split.
  - apply (pdo_is_shooting_plus_save 3 30 2 25); discriminate.
  - apply (pdo_is_shooting_plus_save 0 0 2 25); discriminate.
Defined.

Lemma positive_or_zero (x : float) :
  PrimFloat.leb 0 x = true ->
  PrimFloat.ltb 0 x = negb (PrimFloat.eqb x 0).
Proof.
  rewrite FloatAxioms.leb_spec, FloatAxioms.ltb_spec, FloatAxioms.eqb_spec.
  change (Prim2SF 0) with (S754_zero false).
  destruct (Prim2SF x) as [s|s| |s m e]; try destruct s; cbv; congruence.
Qed.

(** In binary64: for shot counts that compare [>= 0] the double the code
    returns is the double of the stated formula. *)
Lemma pdo_as_stated_in_binary64 (gf sf ga sa : float) :
  PrimFloat.leb 0 sf = true -> PrimFloat.leb 0 sa = true ->
  Double.calculatePDO gf sf ga sa = Double.pdo_as_stated gf sf ga sa.
Proof.
  intros Hsf Hsa; unfold Double.calculatePDO, Double.pdo_as_stated; cbv zeta.
  rewrite (positive_or_zero sf Hsf), (positive_or_zero sa Hsa).
  destruct (PrimFloat.eqb sf 0), (PrimFloat.eqb sa 0); reflexivity.
Qed.

Example pdo_of_nothing_in_binary64 :
  Double.calculatePDO 0 0 0 0 = 100%float.
Proof. reflexivity. Qed.

(** A negative shot count is no count; there the guard [> 0] gives the
    default where the stated formula would divide. *)
Example pdo_of_negative_shot_count :
  ~ (calculatePDO 1 (-1) 0 0 == pdo_as_stated 1 (-1) 0 0)%Q.
Proof. vm_compute; discriminate. Qed.

(** ** Attacking-zone normalisation *)

Lemma normalize_negative (x y : Q) :
  (x < 0)%Q -> normalizeToAttackingZone x y = ((- x)%Q, (- y)%Q).
Proof.
  intros H; unfold normalizeToAttackingZone.
  destruct (Qlt_le_dec x 0) as [_|Hle]; [reflexivity|].
  exfalso; exact (Qlt_not_le _ _ H Hle).
Qed.

Lemma normalize_nonnegative (x y : Q) :
  (0 <= x)%Q -> normalizeToAttackingZone x y = (x, y).
Proof.
  intros H; unfold normalizeToAttackingZone.
  destruct (Qlt_le_dec x 0) as [Hlt|_]; [|reflexivity].
  exfalso; exact (Qlt_not_le _ _ Hlt H).
Qed.

Lemma normalize_lands_in_attacking_half (x y : Q) :
  (0 <= fst (normalizeToAttackingZone x y))%Q.
Proof.
  unfold normalizeToAttackingZone.
  destruct (Qlt_le_dec x 0) as [Hlt|Hle]; simpl; [|exact Hle].
  apply Qlt_le_weak in Hlt.
  apply Qopp_le_compat in Hlt; exact Hlt.
Qed.

(** C6. The normalisation reflects a point with x < 0 through the centre
    and leaves every other point as it is; hence a point whose first
    coordinate is not negative, in particular every normalised point, is
    left unchanged. *)
Theorem normalize_reflects_and_is_idempotent (x y : Q) :
  ((x < 0)%Q -> normalizeToAttackingZone x y = ((- x)%Q, (- y)%Q))
  /\ (~ (x < 0)%Q -> normalizeToAttackingZone x y = (x, y))
  /\ ((0 <= x)%Q -> normalizeToAttackingZone x y = (x, y))
  /\ (let p := normalizeToAttackingZone x y in
      (0 <= fst p)%Q /\ normalizeToAttackingZone (fst p) (snd p) = p).
Proof.
  split; [apply normalize_negative|].
  split; [intros H; apply normalize_nonnegative, Qnot_lt_le, H|].
  split; [apply normalize_nonnegative|].
  cbv zeta; split; [apply normalize_lands_in_attacking_half|].
  rewrite normalize_nonnegative by apply normalize_lands_in_attacking_half.
  symmetry; apply surjective_pairing.
Qed.

Lemma normalize_reflects_and_is_idempotent_witness :
  normalizeToAttackingZone (-30) (5 # 2) = (30%Q, (- (5 # 2))%Q)
  /\ normalizeToAttackingZone 30 (5 # 2) = (30%Q, 5 # 2)
  /\ normalizeToAttackingZone 0 (5 # 2) = (0%Q, 5 # 2).
Proof.
  split; [|split].
  - apply (proj1 (normalize_reflects_and_is_idempotent (-30) (5 # 2))).
    reflexivity.
  - apply (proj1 (proj2 (normalize_reflects_and_is_idempotent 30 (5 # 2)))).
    discriminate.
  - apply (proj1 (proj2 (proj2 (normalize_reflects_and_is_idempotent 0 (5 # 2))))).
    discriminate.
Defined.

(** C7, as stated, fails: no point (0, y) is moved by the normalisation
    applied twice. *)
Lemma normalize_twice_moves_no_boundary_point :
  ~ exists y : Q, normalizeTwice 0 y <> (0%Q, y).
Proof.
  intros [y H]; apply H; reflexivity.
Qed.

(** C7, amended. On every point whose first coordinate is not negative, so
    on every point with x = 0, the normalisation applied twice is the
    identity. *)
Theorem normalize_twice_identity_on_attacking_half (x y : Q) :
  (0 <= x)%Q -> normalizeTwice x y = (x, y).
Proof.
  intros H; unfold normalizeTwice; cbv zeta.
  rewrite (normalize_nonnegative x y H); simpl.
  apply normalize_nonnegative, H.
Qed.

Lemma normalize_twice_identity_on_attacking_half_witness :
  (0 <= 0)%Q /\ normalizeTwice 0 (5 # 2) = (0%Q, 5 # 2).
Proof.
  split; [discriminate|].
  apply (normalize_twice_identity_on_attacking_half 0 (5 # 2)); discriminate.
Defined.

(** In general the second application changes nothing. *)
Lemma normalize_twice_is_once (x y : Q) :
  normalizeTwice x y = normalizeToAttackingZone x y.
Proof.
  unfold normalizeTwice; cbv zeta.
  rewrite normalize_nonnegative by apply normalize_lands_in_attacking_half.
  symmetry; apply surjective_pairing.
Qed.

(** ** Clock helpers *)

Lemma isDigit_in_digits (c : ascii) : isDigit c = true -> In c digits.
Proof.
  destruct c as [[] [] [] [] [] [] [] []]; vm_compute; intros H;
    solve [discriminate H | tauto].
Qed.

Lemma clockFormat_in_allClocks (t : string) :
  clockFormat t = true -> In t allClocks.
Proof.
  destruct t as [|m1 [|m2 [|c [|s1 [|s2 [|? ?]]]]]]; try discriminate.
  unfold clockFormat.
  rewrite !andb_true_iff.
  intros [[[[Hm1 Hm2] Hc] Hs1] Hs2].
  apply Ascii.eqb_eq in Hc; subst c.
  apply isDigit_in_digits in Hm1, Hm2, Hs1, Hs2.
  unfold allClocks.
  apply in_flat_map; exists m1; split; [exact Hm1|].
  apply in_flat_map; exists m2; split; [exact Hm2|].
  apply in_flat_map; exists s1; split; [exact Hs1|].
  apply in_map_iff; exists s2; split; [reflexivity|exact Hs2].
Qed.

Lemma allClocks_checked : forallb clockChecks allClocks = true.
Proof. vm_compute; reflexivity. Qed.

Lemma clockFormat_checks (t : string) :
  clockFormat t = true -> clockChecks t = true.
Proof.
  intros H; apply clockFormat_in_allClocks in H.
  pose proof allClocks_checked as A.
  rewrite forallb_forall in A; apply A, H.
Qed.

Lemma wellFormedClock_format (t : string) :
  wellFormedClock t = true -> clockFormat t = true.
Proof.
  unfold wellFormedClock; intros H; apply andb_true_iff in H; apply H.
Qed.

Lemma number_eqb_eq (a b : number Z) : number_eqb a b = true -> a = b.
Proof.
  destruct a, b; simpl; try discriminate; auto.
  intros H; apply Z.eqb_eq in H; subst; reflexivity.
Qed.

Lemma timeToSeconds_fields (t : string) (p m s : Z) :
  map Number (split ":" t) = [Num m; Num s] ->
  timeToSeconds t p = Num ((p - 1) * 1200 + m * 60 + s).
Proof.
  intros H; unfold timeToSeconds; cbv zeta; rewrite H; simpl.
  f_equal; lia.
Qed.

Lemma clockFormat_fields (t : string) :
  clockFormat t = true ->
  map Number (split ":" t) = [Num (clockMinutes t); Num (clockSeconds t)].
Proof.
  intros H; apply clockFormat_checks in H.
  unfold clockChecks in H; apply andb_true_iff in H; destruct H as [H _].
  destruct (map Number (split ":" t)) as [|a [|b [|? ?]]]; try discriminate.
  apply andb_true_iff in H; destruct H as [Ha Hb].
  apply number_eqb_eq in Ha, Hb; subst; reflexivity.
Qed.

(** The formula holds whatever period is given, and for seconds up to 99. *)
Lemma timeToSeconds_of_clock (t : string) (p : Z) :
  clockFormat t = true ->
  timeToSeconds t p
  = Num ((p - 1) * 1200 + clockMinutes t * 60 + clockSeconds t).
Proof.
  intros H; apply timeToSeconds_fields, clockFormat_fields, H.
Qed.

Lemma wellFormedClock_round_trip (t : string) :
  wellFormedClock t = true -> secondsToTime (timeToSeconds t 1) = t.
Proof.
  intros W; pose proof (wellFormedClock_format t W) as H.
  apply clockFormat_checks in H.
  unfold clockChecks in H; apply andb_true_iff in H; destruct H as [_ H].
  rewrite W in H; apply String.eqb_eq, H.
Qed.

(** C8. For a well-formed zero-padded clock string (two digits of minutes,
    so at most 99, a colon, two digits of seconds, at most 59) and a period
    p >= 1 the absolute time is (p-1)*1200 + minutes*60 + seconds; printing
    it back returns the clock string at period 1, and for some clock string
    and some period p >= 2 it does not: the period offset is not
    subtracted. *)
Theorem clock_conversion_is_one_sided :
  (forall (t : string) (p : Z),
      wellFormedClock t = true -> 1 <= p ->
      timeToSeconds t p
      = Num ((p - 1) * 1200 + clockMinutes t * 60 + clockSeconds t))
  /\ (forall t : string,
         wellFormedClock t = true -> secondsToTime (timeToSeconds t 1) = t)
  /\ (exists (t : string) (p : Z),
         wellFormedClock t = true /\ 2 <= p
         /\ secondsToTime (timeToSeconds t p) <> t).
Proof.
  split; [|split].
  - intros t p H _.
    apply timeToSeconds_of_clock, wellFormedClock_format, H.
  - apply wellFormedClock_round_trip.
  - exists "05:00"%string, 2.
    split; [reflexivity|]. split; [lia|].
    vm_compute; discriminate.
Qed.

Lemma clock_conversion_is_one_sided_witness :
  timeToSeconds "12:34" 3 = Num 3154
  /\ secondsToTime (timeToSeconds "12:34" 1) = "12:34"%string.
Proof.
  split.
  - apply (proj1 clock_conversion_is_one_sided "12:34"%string 3);
      [reflexivity | lia].
  - apply (proj1 (proj2 clock_conversion_is_one_sided) "12:34"%string).
    reflexivity.
Defined.

(** From the second period on, the printed clock is never the input: it
    shows the minutes counted from the start of the game. *)
Example second_period_prints_game_minutes :
  secondsToTime (timeToSeconds "05:00" 2) = "25:00"%string.
Proof. reflexivity. Qed.

(** Seconds above 59 are carried into the minutes when printed. *)
Example seconds_over_59_are_carried :
  secondsToTime (timeToSeconds "00:75" 1) = "01:15"%string.
Proof. reflexivity. Qed.



(** The one way to an error is an argument that is no string. *)
Example timeToSeconds_of_undefined :
  timeToSeconds_completion ArgUndefined 1 = Throw "TypeError".
Proof. reflexivity. Qed.









(** A field with a sign is a numeric literal; it is outside the condition
    above, and outside the strings the embedding of [Number] reads. *)
Example signed_field_is_not_covered : notNumeric "-1" = false.
Proof. reflexivity. Qed.

(** A clock string without a colon has no seconds field, and the result is
    NaN as well. *)
Example timeToSeconds_without_colon : timeToSeconds "5" 1 = NaN.
Proof. reflexivity. Qed.

(** ** The sort *)

Section ArraySortFacts.
Context {A : Type} (cmp : A -> A -> Z).

Lemma Array_insert_perm (a : A) (l : list A) :
  Permutation (Array_insert cmp a l) (a :: l).
Proof.
  induction l as [|b l IH]; simpl; [reflexivity|].
  destruct (cmp a b <=? 0); [reflexivity|].
  rewrite IH; apply perm_swap.
Qed.

Lemma Array_sort_perm (l : list A) : Permutation (Array_sort cmp l) l.
Proof.
  induction l as [|a l IH]; simpl; [reflexivity|].
  rewrite Array_insert_perm, IH; reflexivity.
Qed.

(** With a comparator that is a total preorder the result is sorted. *)
Hypothesis cmp_total : forall a b, cmp a b <= 0 \/ cmp b a <= 0.
Hypothesis cmp_trans : forall a b c, cmp a b <= 0 -> cmp b c <= 0 -> cmp a c <= 0.

Lemma Array_insert_sorted (a : A) (l : list A) :
  StronglySorted (fun a b => cmp a b <= 0) l ->
  StronglySorted (fun a b => cmp a b <= 0) (Array_insert cmp a l).
Proof.
  induction 1 as [|b l Hs IH Hb]; simpl.
  - constructor; constructor.
  - destruct (cmp a b <=? 0) eqn:E.
    + apply Z.leb_le in E.
      constructor; [constructor; assumption|].
      constructor; [exact E|].
      eapply Forall_impl; [|exact Hb].
      intros c Hc; exact (cmp_trans a b c E Hc).
    + apply Z.leb_gt in E.
      constructor; [exact IH|].
      eapply Permutation_Forall; [symmetry; apply Array_insert_perm|].
      constructor; [|exact Hb].
      destruct (cmp_total a b) as [H|H]; [lia|exact H].
Qed.

Lemma Array_sort_sorted (l : list A) :
  StronglySorted (fun a b => cmp a b <= 0) (Array_sort cmp l).
Proof.
  induction l as [|a l IH]; simpl; [constructor|].
  apply Array_insert_sorted, IH.
Qed.
End ArraySortFacts.

Lemma StronglySorted_filter {A : Type} (R : A -> A -> Prop) (f : A -> bool)
    (l : list A) :
  StronglySorted R l -> StronglySorted R (filter f l).
Proof.
  induction 1 as [|a l Hs IH Ha]; simpl; [constructor|].
  destruct (f a); [|exact IH].
  constructor; [exact IH|].
  rewrite Forall_forall in Ha |- *.
  intros b Hb; apply filter_In in Hb; apply Ha, Hb.
Qed.

Lemma filter_perm {A : Type} (f : A -> bool) (l l' : list A) :
  Permutation l l' -> Permutation (filter f l) (filter f l').
Proof.
  induction 1 as [|a l l' _ IH|a b l|l l' l'' _ IH1 _ IH2]; simpl.
  - reflexivity.
  - destruct (f a); [apply perm_skip|]; exact IH.
  - destruct (f a), (f b); try reflexivity. apply perm_swap.
  - etransitivity; eassumption.
Qed.

(** ** The comparator *)

Lemma ascii_compare_trans (a b c : ascii) (o : comparison) :
  Ascii.compare a b = o -> Ascii.compare b c = o -> Ascii.compare a c = o.
Proof.
  unfold Ascii.compare; intros H1 H2; destruct o.
  - apply N.compare_eq_iff in H1, H2; apply N.compare_eq_iff; congruence.
  - rewrite N.compare_lt_iff in *; lia.
  - rewrite N.compare_gt_iff in *; lia.
Qed.

Lemma string_compare_le_trans (s1 s2 s3 : string) :
  String.compare s1 s2 <> Gt -> String.compare s2 s3 <> Gt ->
  String.compare s1 s3 <> Gt.
Proof.
  revert s2 s3; induction s1 as [|c1 s1 IH]; intros [|c2 s2] [|c3 s3];
    simpl; try congruence.
  destruct (Ascii.compare c1 c2) eqn:E12; try congruence;
    destruct (Ascii.compare c2 c3) eqn:E23; try congruence; intros H1 H2.
  - rewrite (ascii_compare_trans _ _ _ _ E12 E23); eapply IH; eassumption.
  - apply Ascii.compare_eq_iff in E12; subst c2; rewrite E23; congruence.
  - apply Ascii.compare_eq_iff in E23; subst c3; rewrite E12; congruence.
  - rewrite (ascii_compare_trans _ _ _ _ E12 E23); congruence.
Qed.

Lemma localeCompare_le (a b : string) :
  localeCompare a b <= 0 <-> String.compare a b <> Gt.
Proof.
  unfold localeCompare; destruct (String.compare a b); split;
    intros; try lia; congruence.
Qed.

Lemma localeCompare_total (a b : string) :
  localeCompare a b <= 0 \/ localeCompare b a <= 0.
Proof.
  unfold localeCompare; rewrite (String.compare_antisym b a).
  destruct (String.compare a b); simpl; lia.
Qed.

Lemma localeCompare_trans (a b c : string) :
  localeCompare a b <= 0 -> localeCompare b c <= 0 -> localeCompare a c <= 0.
Proof.
  rewrite !localeCompare_le; apply string_compare_le_trans.
Qed.

Lemma localeCompare_refl (a : string) : localeCompare a a = 0.
Proof.
  unfold localeCompare.
  pose proof (String.compare_antisym a a) as H.
  destruct (String.compare a a); simpl in H; congruence.
Qed.

Lemma compareShots_le (a b : TeamShot.t) :
  compareShots a b <= 0 <->
  Shot.period (TeamShot.shot a) < Shot.period (TeamShot.shot b)
  \/ (Shot.period (TeamShot.shot a) = Shot.period (TeamShot.shot b)
      /\ localeCompare (Shot.time (TeamShot.shot a))
           (Shot.time (TeamShot.shot b)) <= 0).
Proof.
  unfold compareShots; cbv zeta.
  destruct (Z.eqb_spec (Shot.period (TeamShot.shot a))
              (Shot.period (TeamShot.shot b))) as [E|E]; simpl; split;
    intros H; lia.
Qed.

Lemma compareShots_total (a b : TeamShot.t) :
  compareShots a b <= 0 \/ compareShots b a <= 0.
Proof.
  rewrite !compareShots_le.
  destruct (localeCompare_total (Shot.time (TeamShot.shot a))
              (Shot.time (TeamShot.shot b))); lia.
Qed.

Lemma compareShots_trans (a b c : TeamShot.t) :
  compareShots a b <= 0 -> compareShots b c <= 0 -> compareShots a c <= 0.
Proof.
  rewrite !compareShots_le.
  intros [H1|[H1 T1]] [H2|[H2 T2]]; try lia.
  right; split; [lia|]. eapply localeCompare_trans; eassumption.
Qed.

(** ** The walk over the sorted shots *)

Lemma flowPoints_length (l : list TeamShot.t) (h a : Z) :
  List.length (flowPoints h a l) = List.length l.
Proof.
  revert h a; induction l as [|s l IH]; intros h a; simpl;
    [reflexivity | rewrite IH; reflexivity].
Qed.

Lemma homeCount_cons (s : TeamShot.t) (l : list TeamShot.t) :
  homeCount (s :: l)
  = match TeamShot.team s with home => 1 | away => 0 end + homeCount l.
Proof.
  unfold homeCount, isHome; simpl.
  destruct (TeamShot.team s); simpl List.length; lia.
Qed.

Lemma awayCount_cons (s : TeamShot.t) (l : list TeamShot.t) :
  awayCount (s :: l)
  = match TeamShot.team s with home => 0 | away => 1 end + awayCount l.
Proof.
  unfold awayCount, isAway, isHome; simpl.
  destruct (TeamShot.team s); simpl List.length; lia.
Qed.

Lemma flowPoints_app (l1 l2 : list TeamShot.t) (h a : Z) :
  flowPoints h a (l1 ++ l2)
  = flowPoints h a l1 ++ flowPoints (h + homeCount l1) (a + awayCount l1) l2.
Proof.
  revert h a; induction l1 as [|s l1 IH]; intros h a.
  - simpl; unfold homeCount, awayCount; simpl.
    rewrite !Z.add_0_r; reflexivity.
  - rewrite homeCount_cons, awayCount_cons.
    change ((s :: l1) ++ l2) with (s :: (l1 ++ l2)).
    cbn [flowPoints app]; cbv zeta; rewrite IH.
    destruct (TeamShot.team s).
    + replace (h + (1 + homeCount l1)) with (h + 1 + homeCount l1) by lia.
      replace (a + (0 + awayCount l1)) with (a + awayCount l1) by lia.
      reflexivity.
    + replace (h + (0 + homeCount l1)) with (h + homeCount l1) by lia.
      replace (a + (1 + awayCount l1)) with (a + 1 + awayCount l1) by lia.
      reflexivity.
Qed.

Lemma flowPoints_counters_from (l : list TeamShot.t) (h a : Z) :
  Forall (fun q => h <= CorsiFlowPoint.homeCorsi q
                   /\ a <= CorsiFlowPoint.awayCorsi q) (flowPoints h a l).
Proof.
  revert h a; induction l as [|s l IH]; intros h a; simpl; constructor.
  - simpl; destruct (TeamShot.team s); lia.
  - eapply Forall_impl; [|apply IH].
    intros q; simpl; destruct (TeamShot.team s); lia.
Qed.

Lemma flowPoints_counters_sorted (l : list TeamShot.t) (h a : Z) :
  StronglySorted countersNotAbove (flowPoints h a l).
Proof.
  revert h a; induction l as [|s l IH]; intros h a; simpl; constructor.
  - apply IH.
  - apply flowPoints_counters_from.
Qed.

Lemma flowPoints_differential (l : list TeamShot.t) (h a : Z) :
  Forall differentialIsDifference (flowPoints h a l).
Proof.
  revert h a; induction l as [|s l IH]; intros h a; simpl; constructor.
  - reflexivity.
  - apply IH.
Qed.

Lemma flowPoints_keys (s : TeamShot.t) (l : list TeamShot.t) (h a : Z)
    (pt : CorsiFlowPoint.t) :
  CorsiFlowPoint.period pt = Shot.period (TeamShot.shot s) ->
  CorsiFlowPoint.time pt = Shot.time (TeamShot.shot s) ->
  Forall (fun b => compareShots s b <= 0) l ->
  Forall (flowNotAfter pt) (flowPoints h a l).
Proof.
  intros Hp Ht; revert h a; induction l as [|b l IH]; intros h a H; simpl;
    constructor; inversion H; subst.
  - unfold flowNotAfter; simpl; rewrite Hp, Ht.
    apply compareShots_le; assumption.
  - apply IH; assumption.
Qed.

Lemma flowPoints_sorted (l : list TeamShot.t) (h a : Z) :
  StronglySorted (fun s b => compareShots s b <= 0) l ->
  StronglySorted flowNotAfter (flowPoints h a l).
Proof.
  intros H; revert h a; induction H as [|s l Hs IH Hl]; intros h a; simpl;
    constructor.
  - apply IH.
  - apply (flowPoints_keys s); [reflexivity | reflexivity | exact Hl].
Qed.

Lemma allShots_sorted (homeShots awayShots : list Shot.t) :
  StronglySorted (fun s b => compareShots s b <= 0)
    (allShots homeShots awayShots).
Proof.
  apply Array_sort_sorted; [apply compareShots_total | apply compareShots_trans].
Qed.

(** C2, as stated, fails on a tie: a home goal and an away shot at the same
    clock reading of the same period give two flow points that are not in
    strict order, whichever comes first. *)
Lemma flow_with_tie_is_not_strict :
  ~ Sorted flowStrictlyBefore
      (generateCorsiFlow
         [Shot.mk 1 1 "05:00" "goal" 0 0 None None None None]
         [Shot.mk 2 1 "05:00" "shot-on-goal" 0 0 None None None None]).
Proof.
  intros H.
  apply Sorted_inv in H; destruct H as [_ H].
  apply HdRel_inv in H.
  unfold flowStrictlyBefore in H; simpl in H.
  vm_compute in H; destruct H as [H|[_ H]]; discriminate H.
Qed.

(** C2, amended.  When the clock strings of the events have the clock
    format (two digits, a colon, two digits), the flow is in ascending
    order of (period, clock), ties allowed: every point is not after any
    later point.  For all event lists the two running counts never decrease
    along the flow, and every point's differential is its home count minus
    its away count. *)
Theorem flow_ordered_and_monotone (homeShots awayShots : list Shot.t) :
  let flow := generateCorsiFlow homeShots awayShots in
  ((forall s, In s (homeShots ++ awayShots) ->
              clockFormat (Shot.time s) = true) ->
   StronglySorted flowNotAfter flow)
  /\ StronglySorted countersNotAbove flow
  /\ Forall differentialIsDifference flow.
Proof.
  cbv zeta; unfold generateCorsiFlow; split; [|split].
  - intros _.
    apply flowPoints_sorted, StronglySorted_filter, allShots_sorted.
  - apply flowPoints_counters_sorted.
  - apply flowPoints_differential.
Qed.

Lemma flow_ordered_and_monotone_witness :
  StronglySorted flowNotAfter
    (generateCorsiFlow
       [Shot.mk 1 2 "00:03" "goal" 0 0 None None None None;
        Shot.mk 2 1 "05:00" "faceoff" 0 0 None None None None]
       [Shot.mk 3 1 "19:59" "shot-on-goal" 0 0 None None None None;
        Shot.mk 4 1 "05:00" "missed-shot" 0 0 None None None None]).
Proof.
  apply (proj1 (flow_ordered_and_monotone
                  [Shot.mk 1 2 "00:03" "goal" 0 0 None None None None;
                   Shot.mk 2 1 "05:00" "faceoff" 0 0 None None None None]
                  [Shot.mk 3 1 "19:59" "shot-on-goal" 0 0 None None None None;
                   Shot.mk 4 1 "05:00" "missed-shot" 0 0 None None None None])).
  intros s [<-|[<-|[<-|[<-|[]]]]]; reflexivity.
Defined.

(** ** Totals of the flow *)

Lemma homeCount_app (l1 l2 : list TeamShot.t) :
  homeCount (l1 ++ l2) = homeCount l1 + homeCount l2.
Proof.
  unfold homeCount; rewrite filter_app, length_app; lia.
Qed.

Lemma awayCount_app (l1 l2 : list TeamShot.t) :
  awayCount (l1 ++ l2) = awayCount l1 + awayCount l2.
Proof.
  unfold awayCount; rewrite filter_app, length_app; lia.
Qed.

Lemma homeCount_perm (l l' : list TeamShot.t) :
  Permutation l l' -> homeCount l = homeCount l'.
Proof.
  intros H; unfold homeCount; f_equal.
  apply Permutation_length, filter_perm, H.
Qed.

Lemma awayCount_perm (l l' : list TeamShot.t) :
  Permutation l l' -> awayCount l = awayCount l'.
Proof.
  intros H; unfold awayCount; f_equal.
  apply Permutation_length, filter_perm, H.
Qed.

Lemma counts_of_home_shots (shots : list Shot.t) :
  let tagged := filter isCorsiShot (map (fun s => TeamShot.mk s home) shots) in
  homeCount tagged = calculateCorsiFor shots /\ awayCount tagged = 0.
Proof.
  cbv zeta; unfold calculateCorsiFor.
  induction shots as [|s shots [IHh IHa]]; [split; reflexivity|].
  cbn [map filter].
  change (isCorsiShot (TeamShot.mk s home))
    with (includes CORSI_EVENTS (Shot.type s)).
  destruct (includes CORSI_EVENTS (Shot.type s)); [|split; assumption].
  rewrite homeCount_cons, awayCount_cons; cbn [TeamShot.team].
  cbn [List.length]; rewrite IHh, IHa; split; lia.
Qed.

Lemma counts_of_away_shots (shots : list Shot.t) :
  let tagged := filter isCorsiShot (map (fun s => TeamShot.mk s away) shots) in
  homeCount tagged = 0 /\ awayCount tagged = calculateCorsiFor shots.
Proof.
  cbv zeta; unfold calculateCorsiFor.
  induction shots as [|s shots [IHh IHa]]; [split; reflexivity|].
  cbn [map filter].
  change (isCorsiShot (TeamShot.mk s away))
    with (includes CORSI_EVENTS (Shot.type s)).
  destruct (includes CORSI_EVENTS (Shot.type s)); [|split; assumption].
  rewrite homeCount_cons, awayCount_cons; cbn [TeamShot.team].
  cbn [List.length]; rewrite IHh, IHa; split; lia.
Qed.

Lemma counts_of_allShots (homeShots awayShots : list Shot.t) :
  let shots := filter isCorsiShot (allShots homeShots awayShots) in
  homeCount shots = calculateCorsiFor homeShots
  /\ awayCount shots = calculateCorsiFor awayShots.
Proof.
  cbv zeta.
  assert (P : Permutation
                (filter isCorsiShot (allShots homeShots awayShots))
                (filter isCorsiShot (map (fun s => TeamShot.mk s home) homeShots)
                 ++ filter isCorsiShot (map (fun s => TeamShot.mk s away) awayShots))).
  { rewrite <- filter_app; apply filter_perm, Array_sort_perm. }
  rewrite (homeCount_perm _ _ P), (awayCount_perm _ _ P).
  rewrite homeCount_app, awayCount_app.
  destruct (counts_of_home_shots homeShots) as [-> ->].
  destruct (counts_of_away_shots awayShots) as [-> ->].
  split; lia.
Qed.

Lemma home_plus_away (l : list TeamShot.t) :
  homeCount l + awayCount l = Z.of_nat (List.length l).
Proof.
  induction l as [|s l IH]; [reflexivity|].
  rewrite homeCount_cons, awayCount_cons; cbn [List.length].
  destruct (TeamShot.team s); lia.
Qed.

(** C10. The flow has as many points as the two sides have Corsi events,
    and the last point of a flow that is not empty carries the two Corsi
    counts. *)
Theorem flow_length_and_final_counts (homeShots awayShots : list Shot.t) :
  let flow := generateCorsiFlow homeShots awayShots in
  Z.of_nat (List.length flow)
  = calculateCorsiFor homeShots + calculateCorsiFor awayShots
  /\ (flow <> [] ->
      exists (earlier : list CorsiFlowPoint.t) (final : CorsiFlowPoint.t),
        flow = earlier ++ [final]
        /\ CorsiFlowPoint.homeCorsi final = calculateCorsiFor homeShots
        /\ CorsiFlowPoint.awayCorsi final = calculateCorsiFor awayShots).
Proof.
  cbv zeta; unfold generateCorsiFlow.
  change (filter _ (allShots homeShots awayShots))
    with (filter isCorsiShot (allShots homeShots awayShots)).
  destruct (counts_of_allShots homeShots awayShots) as [Hh Ha].
  cbv zeta in Hh, Ha.
  set (shots := filter isCorsiShot (allShots homeShots awayShots)) in *.
  split.
  - rewrite flowPoints_length, <- home_plus_away; lia.
  - intros Hne.
    destruct (exists_last (l := shots)) as [front [s E]].
    { intros E; rewrite E in Hne; apply Hne; reflexivity. }
    rewrite E, flowPoints_app.
    eexists; eexists; split; [reflexivity|].
    rewrite E, homeCount_app, awayCount_app, homeCount_cons, awayCount_cons
      in *.
    cbn [CorsiFlowPoint.homeCorsi CorsiFlowPoint.awayCorsi].
    unfold homeCount at 2 in Hh; unfold awayCount at 2 in Ha.
    simpl in Hh, Ha.
    destruct (TeamShot.team s); lia.
Qed.

Lemma flow_length_and_final_counts_witness :
  exists (earlier : list CorsiFlowPoint.t) (final : CorsiFlowPoint.t),
    generateCorsiFlow
      [Shot.mk 1 1 "05:00" "goal" 0 0 None None None None]
      [Shot.mk 2 1 "10:00" "shot-on-goal" 0 0 None None None None]
    = earlier ++ [final]
    /\ CorsiFlowPoint.homeCorsi final = 1
    /\ CorsiFlowPoint.awayCorsi final = 1.
Proof.
  apply (proj2 (flow_length_and_final_counts
                  [Shot.mk 1 1 "05:00" "goal" 0 0 None None None None]
                  [Shot.mk 2 1 "10:00" "shot-on-goal" 0 0 None None None None])).
  vm_compute; discriminate.
Defined.

(** The scenario of the specification: a home goal at 05:00 and an away
    shot at 10:00 give the points (1, 0, 1) and (1, 1, 0), in that order. *)
Example flow_of_two_sides :
  generateCorsiFlow
    [Shot.mk 1 1 "05:00" "goal" 0 0 None None None None]
    [Shot.mk 2 1 "10:00" "shot-on-goal" 0 0 None None None None]
  = [CorsiFlowPoint.mk 1 "05:00" "05:00" "goal" 1 0 1;
     CorsiFlowPoint.mk 1 "10:00" "10:00" "shot-on-goal" 1 1 0].
Proof. reflexivity. Qed.

(** ** Expected goals *)

Section Estimator.
Local Open Scope R_scope.

Lemma clamp_bounds (v : R) : 0.01 <= Rmin (Rmax v 0.01) 0.95 <= 0.95.
Proof.
  split; [|apply Rmin_r].
  apply Rmin_glb; [apply Rmax_r | lra].
Qed.

Lemma clamp_of_number (v : R) :
  exists p : R,
    Math_min (Math_max (Num v) (Num 0.01)) (Num 0.95) = Num p
    /\ 0.01 <= p <= 0.95.
Proof.
  eexists; split; [reflexivity | apply clamp_bounds].
Qed.

Lemma orElse_not_object (v : value) (d : R) :
  v <> Object -> exists r : R, ToNumber (orElse v d) = Num r.
Proof.
  destruct v as [|r|]; simpl; intros H.
  - eexists; reflexivity.
  - destruct (Req_dec_T r 0); eexists; reflexivity.
  - contradiction.
Qed.

Lemma getProperty_object (table : list (string * R)) (key : string) :
  getProperty table key = Object -> includes Object_prototype key = true.
Proof.
  unfold getProperty; destruct (ownProperty table key); [discriminate|].
  destruct (includes Object_prototype key); [reflexivity | discriminate].
Qed.

(** The clamp does its work whenever the multiplier read from the table is
    a number or missing: the estimate is then a number within the bounds. *)
Lemma estimateXG_bounds_own_key (x y : R) (shotType : option string) :
  (forall st : string,
      shotType = Some st ->
      includes Object_prototype (toLowerCase st) = false) ->
  exists p : R, estimateXG x y shotType = Num p /\ 0.01 <= p <= 0.95.
Proof.
  intros H; unfold estimateXG; cbv zeta.
  destruct shotType as [st|]; [|apply clamp_of_number].
  destruct (String.eqb st EmptyString); [apply clamp_of_number|].
  destruct (orElse_not_object
              (getProperty typeMultipliers (toLowerCase st)) 1.0) as [r ->].
  - intros E; apply getProperty_object in E.
    rewrite (H st eq_refl) in E; discriminate.
  - apply clamp_of_number.
Qed.

Lemma estimateXG_bounds_no_type (x y : R) :
  exists p : R, estimateXG x y None = Num p /\ 0.01 <= p <= 0.95.
Proof.
  apply estimateXG_bounds_own_key; intros st; discriminate.
Qed.

(** C1 fails on the code: the multiplier table is a plain object, so the
    key [constructor] is found on its prototype, where it is bound to a
    function; the product is NaN, and [Math.max] and [Math.min] pass NaN
    on.  The result is then no number between 0.01 and 0.95, wherever the
    shot was taken from. *)
Theorem estimateXG_inherited_key_is_NaN (x y : R) :
  estimateXG x y (Some "constructor"%string) = NaN
  /\ ~ (exists p : R,
          estimateXG x y (Some "constructor"%string) = Num p
          /\ 0.01 <= p <= 0.95).
Proof.
  assert (E : estimateXG x y (Some "constructor"%string) = NaN).
  { unfold estimateXG; cbv zeta.
    change (String.eqb "constructor" EmptyString) with false; cbv iota.
    assert (G : getProperty typeMultipliers (toLowerCase "constructor") = Object)
      by reflexivity.
    rewrite G; reflexivity. }
  split; [exact E|].
  intros [p [Hp _]]; rewrite E in Hp; discriminate.
Qed.
(** The scenario of the specification: a tip-in from the goal mouth, at
    distance 0 and angle 0, is worth 0.4 * 1.3. *)
Example estimateXG_tip_in_at_goal_mouth :
  estimateXG 89 0 (Some "tip-in"%string) = Num 0.52.
Proof.
  unfold estimateXG; cbv zeta.
  change (String.eqb "tip-in" EmptyString) with false; cbv iota.
  assert (G : getProperty typeMultipliers (toLowerCase "tip-in") = Number_ 1.3)
    by reflexivity.
  rewrite G; clear G.
  unfold orElse; destruct (Req_dec_T 1.3 0) as [E|_]; [lra|].
  assert (D : sqrt ((Rabs 89 - 89) ^ 2 + (0 - 0) ^ 2) = 0).
  { rewrite Rabs_pos_eq by lra.
    replace ((89 - 89) ^ 2 + (0 - 0) ^ 2) with 0 by ring.
    apply sqrt_0. }
  assert (T : Math_atan2 0 (89 - Rabs 89) = 0).
  { rewrite Rabs_pos_eq by lra. unfold Math_atan2.
    destruct (Rlt_dec 0 (89 - 89)); [lra|].
    destruct (Rlt_dec (89 - 89) 0); [lra|].
    destruct (Rlt_dec 0 0); [lra|reflexivity]. }
  rewrite D, T, Rabs_R0; clear D T.
  simpl. f_equal.
  replace (0.4 - 0 * 0.008) with 0.4 by lra.
  rewrite (Rmax_right 0 0.4) by lra.
  replace (0.4 * (1 - 0 * (180 / PI) / 90 * 0.5) * 1.3) with 0.52
    by (unfold Rdiv; lra).
  rewrite Rmax_left by lra.
  apply Rmin_left; lra.
Qed.
End Estimator.

Lemma lowerChar_not_capital (c : ascii) :
  negb ((65 <=? N_of_ascii (lowerChar c)) && (N_of_ascii (lowerChar c) <=? 90))%N
  = true.
Proof.
  destruct c as [[] [] [] [] [] [] [] []]; reflexivity.
Qed.

Lemma toLowerCase_noCapital (s : string) : noCapital (toLowerCase s) = true.
Proof.
  induction s as [|c s IH]; [reflexivity|].
  simpl; rewrite lowerChar_not_capital, IH; reflexivity.
Qed.

(** After [toLowerCase], two names of the prototype can still be hit. *)
Lemma inherited_keys_after_toLowerCase (st : string) :
  includes Object_prototype (toLowerCase st) = true ->
  toLowerCase st = "constructor"%string \/ toLowerCase st = "__proto__"%string.
Proof.
  pose proof (toLowerCase_noCapital st) as N.
  unfold includes; intros H; apply existsb_exists in H.
  destruct H as [k [Hin Heq]]; apply String.eqb_eq in Heq.
  rewrite Heq in N |- *.
  simpl in Hin.
  repeat (destruct Hin as [<- | Hin];
          [first [left; reflexivity | right; reflexivity
                 | vm_compute in N; discriminate N] |]).
  contradiction.
Qed.

(** ** The string order on clock readings *)

Lemma digit_compare (c d : ascii) :
  isDigit c = true -> isDigit d = true ->
  Ascii.compare c d = Z.compare (digitOrZero c) (digitOrZero d).
Proof.
  intros Hc Hd; apply isDigit_in_digits in Hc, Hd.
  simpl in Hc, Hd.
  repeat (destruct Hc as [<- | Hc];
          [repeat (destruct Hd as [<- | Hd]; [reflexivity|]); contradiction|]).
  contradiction.
Qed.

Lemma digit_range (c : ascii) :
  isDigit c = true -> 0 <= digitOrZero c <= 9.
Proof.
  intros Hc; apply isDigit_in_digits in Hc; simpl in Hc.
  repeat (destruct Hc as [<- | Hc]; [vm_compute; split; discriminate|]).
  contradiction.
Qed.

(** On well-formed clock readings the order of the strings is the order of
    the times they show. *)
Lemma localeCompare_clock_order (t1 t2 : string) :
  wellFormedClock t1 = true -> wellFormedClock t2 = true ->
  (localeCompare t1 t2 <= 0
   <-> clockMinutes t1 * 60 + clockSeconds t1
       <= clockMinutes t2 * 60 + clockSeconds t2).
Proof.
  unfold wellFormedClock; rewrite !andb_true_iff, !Z.leb_le.
  intros [F1 Hle1] [F2 Hle2]; revert F1 F2 Hle1 Hle2.
  destruct t1 as [|a1 [|b1 [|k1 [|c1 [|d1 [|? ?]]]]]]; try discriminate.
  destruct t2 as [|a2 [|b2 [|k2 [|c2 [|d2 [|? ?]]]]]]; try discriminate.
  unfold clockFormat; rewrite !andb_true_iff.
  intros [[[[Ha1 Hb1] Hk1] Hc1] Hd1] [[[[Ha2 Hb2] Hk2] Hc2] Hd2].
  apply Ascii.eqb_eq in Hk1, Hk2; subst k1 k2.
  rewrite localeCompare_le.
  unfold clockMinutes, clockSeconds.
  cbn [String.compare].
  rewrite (digit_compare a1 a2), (digit_compare b1 b2),
    (digit_compare c1 c2), (digit_compare d1 d2) by assumption.
  change (Ascii.compare ":" ":") with Eq; cbv iota.
  pose proof (digit_range a1 Ha1); pose proof (digit_range a2 Ha2).
  pose proof (digit_range b1 Hb1); pose proof (digit_range b2 Hb2).
  pose proof (digit_range c1 Hc1); pose proof (digit_range c2 Hc2).
  pose proof (digit_range d1 Hd1); pose proof (digit_range d2 Hd2).
  intros Hle1 Hle2.
  destruct (Z.compare_spec (digitOrZero a1) (digitOrZero a2));
    [destruct (Z.compare_spec (digitOrZero b1) (digitOrZero b2));
     [destruct (Z.compare_spec (digitOrZero c1) (digitOrZero c2));
      [destruct (Z.compare_spec (digitOrZero d1) (digitOrZero d2))| |]| |]| |];
    split; intros G; try congruence; try lia; exfalso; apply G; reflexivity.
Qed.

(** Without the zero padding the two orders part: as strings, ten o'clock
    comes before nine. *)
Example localeCompare_unpadded : localeCompare "10:00" "9:00" = -1.
Proof. reflexivity. Qed.

(** * Further properties of the code *)

(** ** Counts *)

Lemma corsi_kind_split (s : string) :
  includes CORSI_EVENTS s
  = includes FENWICK_EVENTS s || String.eqb s "blocked-shot".
Proof.
  unfold includes, CORSI_EVENTS, FENWICK_EVENTS; simpl.
  destruct (String.eqb s "shot-on-goal"), (String.eqb s "missed-shot"),
    (String.eqb s "blocked-shot"), (String.eqb s "goal"); reflexivity.
Qed.

Lemma blocked_is_not_fenwick (s : string) :
  String.eqb s "blocked-shot" = true -> includes FENWICK_EVENTS s = false.
Proof.
  intros H; apply String.eqb_eq in H; subst s; reflexivity.
Qed.

(** The blocked shots are exactly what the Fenwick count leaves out of the
    Corsi count. *)
Theorem corsi_is_fenwick_plus_blocked (shots : list Shot.t) :
  calculateCorsiFor shots = calculateFenwickFor shots + blockedCount shots.
Proof.
  unfold calculateCorsiFor, calculateFenwickFor, blockedCount, isBlocked.
  induction shots as [|s shots IH]; [reflexivity|].
  cbn [filter]; rewrite (corsi_kind_split (Shot.type s)).
  destruct (String.eqb (Shot.type s) "blocked-shot") eqn:B.
  - rewrite (blocked_is_not_fenwick _ B); cbn [orb List.length]; lia.
  - rewrite orb_false_r.
    destruct (includes FENWICK_EVENTS (Shot.type s)); cbn [List.length]; lia.
Qed.

(** Shots of the four declared kinds all count: the Corsi count of such a
    list is its length. *)
Theorem corsi_counts_every_declared_shot (shots : list Shot.t) :
  (forall s, In s shots -> In (Shot.type s) CORSI_EVENTS) ->
  calculateCorsiFor shots = Z.of_nat (List.length shots).
Proof.
  intros H; unfold calculateCorsiFor; f_equal; f_equal.
  induction shots as [|s shots IH]; [reflexivity|].
  cbn [filter].
  assert (E : includes CORSI_EVENTS (Shot.type s) = true).
  { unfold includes; apply existsb_exists.
    exists (Shot.type s); split; [apply H; left; reflexivity|].
    apply String.eqb_refl. }
  rewrite E, IH; [reflexivity|].
  intros s' Hs'; apply H; right; exact Hs'.
Qed.

Lemma corsi_counts_every_declared_shot_witness :
  calculateCorsiFor
    [Shot.mk 1 1 "05:00" "goal" 0 0 None None None None;
     Shot.mk 2 1 "06:10" "blocked-shot" 0 0 None None None None]
  = 2.
Proof.
  apply (corsi_counts_every_declared_shot
           [Shot.mk 1 1 "05:00" "goal" 0 0 None None None None;
            Shot.mk 2 1 "06:10" "blocked-shot" 0 0 None None None None]).
  intros s [<-|[<-|[]]]; simpl; tauto.
Defined.

Lemma filter_length_le_all {A : Type} (f : A -> bool) (l : list A) :
  (List.length (filter f l) <= List.length l)%nat.
Proof.
  induction l as [|a l IH]; simpl; [lia|].
  destruct (f a); simpl; lia.
Qed.



(** ** Percentages and PDO, continued *)

Lemma percent_in_range (f a : Q) :
  (0 <= f)%Q -> (0 <= a)%Q ->
  (0 <= calculateCorsiPercent f a <= 100)%Q.
Proof.
  intros Hf Ha; unfold calculateCorsiPercent; cbv zeta.
  destruct (Qeq_bool (f + a) 0) eqn:E; [split; discriminate|].
  apply Qeq_bool_neq in E.
  assert (T : (0 < f + a)%Q).
  { destruct (Qlt_le_dec 0 (f + a)) as [H|H]; [exact H|].
    exfalso; apply E; Lqa.lra. }
  assert (R : (f / (f + a) * 100 == (100 * f) / (f + a))%Q) by (field; exact E).
  rewrite R; split.
  - apply Qle_shift_div_l; [exact T | Lqa.lra].
  - apply Qle_shift_div_r; [exact T | Lqa.lra].
Qed.

(** On counts that are not negative each of the three percentages lies
    between 0 and 100. *)
Theorem percentages_between_0_and_100 (f a : Q) :
  (0 <= f)%Q -> (0 <= a)%Q ->
  (0 <= calculateCorsiPercent f a <= 100)%Q
  /\ (0 <= calculateFenwickPercent f a <= 100)%Q
  /\ (0 <= calculateGoalsForPercent f a <= 100)%Q.
Proof.
  intros Hf Ha; repeat split; apply (percent_in_range f a Hf Ha).
Qed.

Lemma percentages_between_0_and_100_witness :
  (0 <= calculateCorsiPercent 31 22 <= 100)%Q.
Proof.
  apply (percentages_between_0_and_100 31 22); discriminate.
Defined.

Lemma percent_leader (f a : Q) :
  (0 <= f)%Q -> (0 <= a)%Q ->
  ((a <= f)%Q -> (50 <= calculateCorsiPercent f a)%Q)
  /\ ((f <= a)%Q -> (calculateCorsiPercent f a <= 50)%Q).
Proof.
  intros Hf Ha; unfold calculateCorsiPercent; cbv zeta.
  destruct (Qeq_bool (f + a) 0) eqn:E; [split; intros _; discriminate|].
  apply Qeq_bool_neq in E.
  assert (T : (0 < f + a)%Q).
  { destruct (Qlt_le_dec 0 (f + a)) as [H|H]; [exact H|].
    exfalso; apply E; Lqa.lra. }
  assert (R : (f / (f + a) * 100 == (100 * f) / (f + a))%Q) by (field; exact E).
  rewrite R; split; intros H.
  - apply Qle_shift_div_l; [exact T | Lqa.lra].
  - apply Qle_shift_div_r; [exact T | Lqa.lra].
Qed.

(** The side with at least as many events has at least 50 percent, and the
    side with at most as many has at most 50: on counts from 0 to 2^53, as
    far as whole numbers are doubles, none of the three percentages is on
    the wrong side of 50. *)
Theorem percentage_sides_with_the_leader (f a : Q) :
  (0 <= f <= wholeDoubles)%Q -> (0 <= a <= wholeDoubles)%Q ->
  ((a <= f)%Q ->
   (50 <= calculateCorsiPercent f a)%Q
   /\ (50 <= calculateFenwickPercent f a)%Q
   /\ (50 <= calculateGoalsForPercent f a)%Q)
  /\ ((f <= a)%Q ->
      (calculateCorsiPercent f a <= 50)%Q
      /\ (calculateFenwickPercent f a <= 50)%Q
      /\ (calculateGoalsForPercent f a <= 50)%Q).
Proof.
  intros [Hf _] [Ha _]; destruct (percent_leader f a Hf Ha) as [L U].
  split; intros H; repeat split; first [apply L, H | apply U, H].
Qed.

Lemma percentage_sides_with_the_leader_witness :
  (50 <= calculateCorsiPercent 31 22)%Q
  /\ (calculateCorsiPercent 22 31 <= 50)%Q.
Proof.
  split.
  - apply (proj1 (percentage_sides_with_the_leader 31 22
                    ltac:(split; discriminate) ltac:(split; discriminate))).
    discriminate.
  - apply (proj2 (percentage_sides_with_the_leader 22 31
                    ltac:(split; discriminate) ltac:(split; discriminate))).
    discriminate.
Defined.

(** A negative count takes a percentage out of the range: nothing in the
    code rejects it. *)
Example percent_of_negative_count : (calculateCorsiPercent 3 (-1) == 150)%Q.
Proof. reflexivity. Qed.

(** With goals that do not exceed the shots, PDO stays between 0 and 200. *)
Theorem pdo_between_0_and_200 (gf sf ga sa : Q) :
  (0 <= gf <= sf)%Q -> (0 <= ga <= sa)%Q ->
  (0 <= calculatePDO gf sf ga sa <= 200)%Q.
Proof.
  intros [Hgf Hsf] [Hga Hsa]; unfold calculatePDO; cbv zeta.
  assert (S : forall g s : Q, (0 <= g <= s)%Q -> (0 < s)%Q ->
                (0 <= g / s * 100 <= 100)%Q).
  { intros g s [Hg Hs] Hp.
    assert (R : (g / s * 100 == (100 * g) / s)%Q)
      by (field; intros E; rewrite E in Hp; Lqa.lra).
    rewrite R; split.
    - apply Qle_shift_div_l; [exact Hp | Lqa.lra].
    - apply Qle_shift_div_r; [exact Hp | Lqa.lra]. }
  assert (V : forall g s : Q, (0 <= g <= s)%Q -> (0 < s)%Q ->
                (0 <= (s - g) / s * 100 <= 100)%Q).
  { intros g s [Hg Hs] Hp; apply S; [split; Lqa.lra | exact Hp]. }
  destruct (Qlt_le_dec 0 sf) as [Pf|_], (Qlt_le_dec 0 sa) as [Pa|_].
  - pose proof (S gf sf (conj Hgf Hsf) Pf); pose proof (V ga sa (conj Hga Hsa) Pa).
    Lqa.lra.
  - pose proof (S gf sf (conj Hgf Hsf) Pf); Lqa.lra.
  - pose proof (V ga sa (conj Hga Hsa) Pa); Lqa.lra.
  - Lqa.lra.
Qed.

Lemma pdo_between_0_and_200_witness :
  (0 <= calculatePDO 4 30 2 28 <= 200)%Q.
Proof.
  apply (pdo_between_0_and_200 4 30 2 28); split; discriminate.
Defined.

(** ** Rolling average *)

Lemma rollingLoop_indices (data : list Q) (window : Z) (steps : nat) :
  forall (i : Z) (result : list (number Q)),
    rollingLoop data window i steps result
    = result ++ map (rollingStep data window) (indices i steps).
Proof.
  induction steps as [|steps IH]; intros i result; simpl.
  - rewrite app_nil_r; reflexivity.
  - rewrite IH, <- app_assoc; reflexivity.
Qed.

Lemma rollingAverage_indices (data : list Q) (window : Z) :
  rollingAverage data window
  = map (rollingStep data window) (indices 0 (List.length data)).
Proof.
  unfold rollingAverage; rewrite rollingLoop_indices; reflexivity.
Qed.

Lemma indices_length (steps : nat) (i : Z) :
  List.length (indices i steps) = steps.
Proof.
  revert i; induction steps as [|steps IH]; intros i; simpl;
    [reflexivity | rewrite IH; reflexivity].
Qed.

Lemma indices_range (steps : nat) (i k : Z) :
  In k (indices i steps) -> i <= k < i + Z.of_nat steps.
Proof.
  revert i; induction steps as [|steps IH]; intros i; simpl; [tauto|].
  intros [<-|H]; [lia|]. apply IH in H; lia.
Qed.

Lemma slice_length {A : Type} (start end_ : Z) (l : list A) :
  List.length (slice start end_ l)
  = Nat.min (Z.to_nat (end_ - start)) (List.length l - Z.to_nat start).
Proof.
  unfold slice; rewrite length_firstn, length_skipn; reflexivity.
Qed.

Lemma slice_empty {A : Type} (start end_ : Z) (l : list A) :
  end_ <= start -> slice start end_ l = [].
Proof.
  intros H; unfold slice.
  replace (Z.to_nat (end_ - start)) with O by lia; reflexivity.
Qed.

(** The result has one value for each data point, whatever the window. *)
Lemma rollingAverage_length (data : list Q) (window : Z) :
  List.length (rollingAverage data window) = List.length data.
Proof.
  rewrite rollingAverage_indices, length_map, indices_length; reflexivity.
Qed.

(** With a window of zero or less every slice is empty, and the result is
    NaN at every index: one value for each data point, none of them a
    number. *)
Theorem rollingAverage_without_window (data : list Q) (window : Z) :
  window <= 0 ->
  List.length (rollingAverage data window) = List.length data
  /\ Forall (fun r => r = NaN) (rollingAverage data window).
Proof.
  intros H; split; [apply rollingAverage_length|].
  rewrite rollingAverage_indices, Forall_map, Forall_forall.
  intros k Hk; apply indices_range in Hk.
  unfold rollingStep; cbv zeta.
  rewrite slice_empty by lia; reflexivity.
Qed.

Lemma rollingAverage_without_window_witness :
  Forall (fun r => r = NaN) (rollingAverage [52; 48; 55]%Q 0).
Proof.
  apply (rollingAverage_without_window [52; 48; 55]%Q 0); lia.
Defined.

Lemma slice_one {A : Type} (l : list A) (k : nat) (d : A) :
  nth_error l k = Some d ->
  slice (Z.of_nat k) (Z.of_nat k + 1) l = [d].
Proof.
  intros H; apply nth_error_split in H; destruct H as [l1 [l2 [-> <-]]].
  unfold slice.
  replace (Z.to_nat (Z.of_nat (List.length l1) + 1 - Z.of_nat (List.length l1)))
    with 1%nat by lia.
  rewrite Nat2Z.id, skipn_app, skipn_all, Nat.sub_diag; reflexivity.
Qed.

Lemma Forall2_over_indices {B : Type} (f : Z -> B) (R : B -> Q -> Prop)
    (l : list Q) :
  forall i : nat,
    (forall k d, nth_error l k = Some d -> R (f (Z.of_nat (i + k))) d) ->
    Forall2 R (map f (indices (Z.of_nat i) (List.length l))) l.
Proof.
  induction l as [|d l IH]; intros i H; simpl; constructor.
  - specialize (H O d eq_refl); rewrite Nat.add_0_r in H; exact H.
  - replace (Z.of_nat i + 1) with (Z.of_nat (S i)) by lia.
    apply IH; intros k d' Hk.
    specialize (H (S k) d' Hk).
    replace (S i + k)%nat with (i + S k)%nat by lia; exact H.
Qed.

(** A window of one changes nothing: every value of the result is the data
    point at its index. *)
Theorem rollingAverage_window_one (data : list Q) :
  Forall2 (fun r d => exists q : Q, r = Num q /\ (q == d)%Q)
    (rollingAverage data 1) data.
Proof.
  rewrite rollingAverage_indices.
  apply (Forall2_over_indices (rollingStep data 1) _ data O).
  intros k d Hk; simpl.
  unfold rollingStep; cbv zeta.
  replace (Z.max 0 (Z.of_nat k - 1 + 1)) with (Z.of_nat k) by lia.
  rewrite (slice_one data k d Hk).
  unfold averageOf; simpl; eexists; split; [reflexivity|].
  field.
Qed.

(** ** Rink geometry *)

(** The drawing keeps the order of the rink on both axes: a point further
    along the rink is drawn no further back, a point further up no further
    down, and the centre of the rink is the centre of the picture. *)
Theorem nhlToSvg_keeps_order (x1 y1 x2 y2 : Q) :
  ((x1 <= x2)%Q -> (fst (nhlToSvg x1 y1) <= fst (nhlToSvg x2 y2))%Q)
  /\ ((y1 <= y2)%Q -> (snd (nhlToSvg x1 y1) <= snd (nhlToSvg x2 y2))%Q)
  /\ (fst (nhlToSvg 0 0) == RINK.SVG_WIDTH / 2)%Q
  /\ (snd (nhlToSvg 0 0) == RINK.SVG_HEIGHT / 2)%Q.
Proof.
  assert (Ex : forall x y, (fst (nhlToSvg x y) == 4 * (x + 100))%Q)
    by (intros; unfold nhlToSvg, RINK.SVG_WIDTH; cbn [fst]; field).
  assert (Ey : forall x y, (snd (nhlToSvg x y) == 4 * (y + 42.5))%Q)
    by (intros; unfold nhlToSvg, RINK.SVG_HEIGHT; cbn [snd]; field).
  split; [|split; [|split]].
  - intros H; rewrite !Ex; Lqa.lra.
  - intros H; rewrite !Ey; Lqa.lra.
  - reflexivity.
  - reflexivity.
Qed.

Lemma nhlToSvg_keeps_order_witness :
  (fst (nhlToSvg 0 10) <= fst (nhlToSvg 9 (-10)))%Q.
Proof.
  apply (proj1 (nhlToSvg_keeps_order 0 10 9 (-10))); discriminate.
Defined.

(** A point of the rink is drawn inside the picture, and the corners of the
    rink are the corners of the picture. *)
Theorem nhlToSvg_stays_in_picture (x y : Q) :
  (-100 <= x <= 100)%Q -> (-42.5 <= y <= 42.5)%Q ->
  (0 <= fst (nhlToSvg x y) <= RINK.SVG_WIDTH)%Q
  /\ (0 <= snd (nhlToSvg x y) <= RINK.SVG_HEIGHT)%Q.
Proof.
  intros Hx Hy.
  assert (Ex : (fst (nhlToSvg x y) == 4 * (x + 100))%Q)
    by (unfold nhlToSvg, RINK.SVG_WIDTH; cbn [fst]; field).
  assert (Ey : (snd (nhlToSvg x y) == 4 * (y + 42.5))%Q)
    by (unfold nhlToSvg, RINK.SVG_HEIGHT; cbn [snd]; field).
  rewrite Ex, Ey; unfold RINK.SVG_WIDTH, RINK.SVG_HEIGHT.
  split; split; Lqa.lra.
Qed.

Lemma nhlToSvg_stays_in_picture_witness :
  (0 <= fst (nhlToSvg (-100) 42.5) <= RINK.SVG_WIDTH)%Q
  /\ (0 <= snd (nhlToSvg (-100) 42.5) <= RINK.SVG_HEIGHT)%Q.
Proof.
  apply (nhlToSvg_stays_in_picture (-100) 42.5); split; discriminate.
Defined.

(** The four kinds of shot have four different colours, and a type that is
    none of them is drawn in the colour of a missed shot. *)
Theorem getShotColor_tells_the_kinds_apart (s t : string) :
  (In s CORSI_EVENTS -> In t CORSI_EVENTS ->
   getShotColor s = getShotColor t -> s = t)
  /\ (~ In t CORSI_EVENTS -> getShotColor t = getShotColor "missed-shot").
Proof.
  split.
  - simpl; intros Hs Ht.
    repeat (destruct Hs as [<-|Hs]);
      repeat (destruct Ht as [<-|Ht]);
      try contradiction; vm_compute; intros E; try reflexivity;
      discriminate E.
  - intros H; unfold getShotColor.
    destruct (String.eqb_spec t "goal") as [->|_];
      [exfalso; apply H; simpl; tauto|].
    destruct (String.eqb_spec t "shot-on-goal") as [->|_];
      [exfalso; apply H; simpl; tauto|].
    destruct (String.eqb_spec t "missed-shot") as [->|_]; [reflexivity|].
    destruct (String.eqb_spec t "blocked-shot") as [->|_];
      [exfalso; apply H; simpl; tauto | reflexivity].
Qed.

Lemma getShotColor_tells_the_kinds_apart_witness :
  getShotColor "faceoff" = getShotColor "missed-shot".
Proof.
  apply (proj2 (getShotColor_tells_the_kinds_apart "goal" "faceoff")).
  simpl; intros [H|[H|[H|[H|[]]]]]; discriminate H.
Defined.

(** ** The shot map *)

Lemma half_rink_flip (shot : Shot.t) :
  (if Qlt_le_dec (Shot.x shot) 0 then (- Shot.x shot)%Q else Shot.x shot,
   if Qlt_le_dec (Shot.x shot) 0 then (- Shot.y shot)%Q else Shot.y shot)
  = normalizeToAttackingZone (Shot.x shot) (Shot.y shot).
Proof.
  unfold normalizeToAttackingZone.
  destruct (Qlt_le_dec (Shot.x shot) 0); reflexivity.
Qed.

Lemma half_rink_shots_face_right (shots : list Shot.t) :
  Forall (fun s => (0 <= Shot.x s)%Q) (normalizedShots true shots).
Proof.
  unfold normalizedShots; rewrite Forall_map, Forall_forall.
  intros shot _; cbn [withCoordinates Shot.x].
  pose proof (normalize_lands_in_attacking_half (Shot.x shot) (Shot.y shot)) as H.
  rewrite <- half_rink_flip in H; exact H.
Qed.

Lemma filter_keeps_all {A : Type} (f : A -> bool) (l : list A) :
  Forall (fun a => f a = true) l -> filter f l = l.
Proof.
  induction 1 as [|a l Ha _ IH]; simpl; [reflexivity|].
  rewrite Ha, IH; reflexivity.
Qed.

(** In the half-rink view no shot is dropped: the flip to the right side is
    the attacking-zone normalisation, so every flipped shot has x >= 0 and
    passes the filter.  The drawn list has the length of the input, in its
    order, each shot with its normalised coordinates. *)
Theorem half_rink_shows_every_shot (shots : list Shot.t) :
  visibleShots true shots
  = map (fun shot =>
           let p := normalizeToAttackingZone (Shot.x shot) (Shot.y shot) in
           withCoordinates shot (fst p) (snd p))
      shots
  /\ List.length (visibleShots true shots) = List.length shots
  /\ Forall (fun s => (0 <= Shot.x s)%Q) (visibleShots true shots).
Proof.
  assert (V : visibleShots true shots = normalizedShots true shots).
  { unfold visibleShots; apply filter_keeps_all.
    eapply Forall_impl; [|apply half_rink_shots_face_right].
    intros s H; apply Qle_bool_iff; exact H. }
  rewrite V; split; [|split].
  - unfold normalizedShots; apply map_ext; intros shot; cbv zeta.
    rewrite <- half_rink_flip; reflexivity.
  - unfold normalizedShots; apply length_map.
  - apply half_rink_shots_face_right.
Qed.

(** The full-rink view draws the shots as they are given. *)
Lemma full_rink_shows_shots_unchanged (shots : list Shot.t) :
  visibleShots false shots = shots.
Proof.
  unfold visibleShots, normalizedShots; apply map_id.
Qed.

(** In the half-rink view a shot of the attacking half is drawn inside the
    picture of 400 by 340 pixels. *)
Theorem half_rink_shot_stays_in_picture (d : Shot.t) :
  (0 <= Shot.x d <= 100)%Q -> (-42.5 <= Shot.y d <= 42.5)%Q ->
  (0 <= shotCx true d <= shotMapWidth true)%Q
  /\ (0 <= shotCy d <= RINK.SVG_HEIGHT)%Q.
Proof.
  assert (Ex : (shotCx true d == 4 * Shot.x d)%Q)
    by (unfold shotCx, shotMapWidth, RINK.SVG_WIDTH; field).
  assert (Ey : (shotCy d == 4 * (Shot.y d + 42.5))%Q)
    by (unfold shotCy, nhlToSvg, RINK.SVG_HEIGHT; cbn [snd]; field).
  intros Hx Hy; rewrite Ex, Ey.
  assert (W : (shotMapWidth true == 400)%Q) by reflexivity.
  rewrite W; unfold RINK.SVG_HEIGHT.
  split; split; Lqa.lra.
Qed.

Lemma half_rink_shot_stays_in_picture_witness :
  let d := Shot.mk 7 1 "03:21" "goal" 80 (-10) None None None None in
  (0 <= shotCx true d <= shotMapWidth true)%Q
  /\ (0 <= shotCy d <= RINK.SVG_HEIGHT)%Q.
Proof.
  apply (half_rink_shot_stays_in_picture
           (Shot.mk 7 1 "03:21" "goal" 80 (-10) None None None None));
    split; discriminate.
Defined.

(** ** Clock helpers, continued *)

Lemma allSeconds_checked : forallb secondsChecks allSeconds = true.
Proof. vm_compute; reflexivity. Qed.

Lemma seconds_in_allSeconds (n : Z) : 0 <= n < 6000 -> In n allSeconds.
Proof.
  intros H; unfold allSeconds; apply in_map_iff.
  exists (Z.to_nat n); split; [lia|]. apply in_seq; split; lia.
Qed.

(** Printing a total of seconds below 100 minutes gives a well-formed clock
    reading, and reading it back in period p gives the total again, moved by
    the (p-1)*1200 seconds of the periods before: at period 1 the two
    helpers are inverse to each other in this direction as well. *)
Theorem secondsToTime_then_timeToSeconds (n p : Z) :
  0 <= n < 6000 ->
  wellFormedClock (secondsToTime (Num n)) = true
  /\ timeToSeconds (secondsToTime (Num n)) p = Num ((p - 1) * 1200 + n)
  /\ timeToSeconds (secondsToTime (Num n)) 1 = Num n.
Proof.
  intros H; apply seconds_in_allSeconds in H.
  pose proof allSeconds_checked as A.
  rewrite forallb_forall in A; specialize (A n H).
  unfold secondsChecks in A; cbv zeta in A.
  apply andb_true_iff in A; destruct A as [W E]; apply Z.eqb_eq in E.
  split; [exact W|].
  pose proof (wellFormedClock_format _ W) as F.
  split; rewrite (timeToSeconds_of_clock _ _ F); f_equal; lia.
Qed.

Lemma secondsToTime_then_timeToSeconds_witness :
  timeToSeconds (secondsToTime (Num 754)) 3 = Num ((3 - 1) * 1200 + 754).
Proof.
  apply (secondsToTime_then_timeToSeconds 754 3); lia.
Defined.

(** From 100 minutes on the minutes no longer fit in two digits, and the
    printed string is not of the clock format. *)
Example secondsToTime_100_minutes :
  secondsToTime (Num 6000) = "100:00"%string
  /\ clockFormat (secondsToTime (Num 6000)) = false.
Proof. split; reflexivity. Qed.

Lemma inPeriodClock_range (t : string) :
  inPeriodClock t = true ->
  wellFormedClock t = true
  /\ 0 <= clockMinutes t * 60 + clockSeconds t < 1200.
Proof.
  unfold inPeriodClock; rewrite andb_true_iff, Z.ltb_lt; intros [W M].
  split; [exact W|].
  pose proof W as W'; unfold wellFormedClock in W'.
  apply andb_true_iff in W'; destruct W' as [F S]; apply Z.leb_le in S.
  destruct t as [|a [|b [|k [|c [|d [|? ?]]]]]]; try discriminate.
  unfold clockFormat in F; rewrite !andb_true_iff in F.
  destruct F as [[[[Ha Hb] _] Hc] Hd].
  unfold clockMinutes, clockSeconds in *.
  pose proof (digit_range a Ha); pose proof (digit_range b Hb).
  pose proof (digit_range c Hc); pose proof (digit_range d Hd).
  lia.
Qed.

Lemma period_clock_order (p1 p2 : Z) (t1 t2 : string) :
  inPeriodClock t1 = true -> inPeriodClock t2 = true ->
  (p1 < p2 \/ (p1 = p2 /\ localeCompare t1 t2 <= 0)
   <-> notLater (timeToSeconds t1 p1) (timeToSeconds t2 p2)).
Proof.
  intros H1 H2.
  apply inPeriodClock_range in H1, H2.
  destruct H1 as [W1 R1], H2 as [W2 R2].
  rewrite (timeToSeconds_of_clock _ _ (wellFormedClock_format _ W1)).
  rewrite (timeToSeconds_of_clock _ _ (wellFormedClock_format _ W2)).
  unfold notLater.
  rewrite (localeCompare_clock_order _ _ W1 W2).
  lia.
Qed.

(** For shots whose clock strings are well-formed readings within their
    20-minute period, the comparator of the sort orders by absolute time:
    one shot is sorted not after another exactly when its game-elapsed
    seconds are not more. *)
Theorem compareShots_is_chronological (a b : TeamShot.t) :
  inPeriodClock (Shot.time (TeamShot.shot a)) = true ->
  inPeriodClock (Shot.time (TeamShot.shot b)) = true ->
  (compareShots a b <= 0
   <-> notLater (shotSeconds (TeamShot.shot a)) (shotSeconds (TeamShot.shot b))).
Proof.
  intros Ha Hb; rewrite compareShots_le.
  apply period_clock_order; assumption.
Qed.

Lemma compareShots_is_chronological_witness :
  compareShots
    (TeamShot.mk (Shot.mk 1 1 "19:59" "goal" 0 0 None None None None) home)
    (TeamShot.mk (Shot.mk 2 2 "00:03" "goal" 0 0 None None None None) away)
  <= 0.
Proof.
  apply (compareShots_is_chronological
           (TeamShot.mk (Shot.mk 1 1 "19:59" "goal" 0 0 None None None None) home)
           (TeamShot.mk (Shot.mk 2 2 "00:03" "goal" 0 0 None None None None) away));
    [reflexivity | reflexivity | vm_compute; discriminate].
Defined.

(** ** The flow, continued *)

Lemma flowPoints_keys_of_shots (l : list TeamShot.t) (h a : Z) :
  map pointKey (flowPoints h a l) = map (fun s => shotKey (TeamShot.shot s)) l.
Proof.
  revert h a; induction l as [|s l IH]; intros h a; simpl;
    [reflexivity | rewrite IH; reflexivity].
Qed.

Lemma flowPoints_timeRemaining (l : list TeamShot.t) (h a : Z) :
  Forall (fun p => CorsiFlowPoint.timeRemaining p = CorsiFlowPoint.time p)
    (flowPoints h a l).
Proof.
  revert h a; induction l as [|s l IH]; intros h a; simpl; constructor;
    [reflexivity | apply IH].
Qed.

Lemma corsi_shots_of_allShots (homeShots awayShots : list Shot.t) :
  Permutation
    (map TeamShot.shot (filter isCorsiShot (allShots homeShots awayShots)))
    (filter isCorsi (homeShots ++ awayShots)).
Proof.
  assert (T : forall (t : Team) (l : list Shot.t),
            map TeamShot.shot
              (filter isCorsiShot (map (fun s => TeamShot.mk s t) l))
            = filter isCorsi l).
  { intros t l; induction l as [|s l IH]; [reflexivity|].
    cbn [map filter].
    change (isCorsiShot (TeamShot.mk s t)) with (isCorsi s).
    destruct (isCorsi s); cbn [map TeamShot.shot]; rewrite IH; reflexivity. }
  rewrite filter_app, <- (T home homeShots), <- (T away awayShots), <- map_app,
    <- filter_app.
  apply Permutation_map, filter_perm, Array_sort_perm.
Qed.

Lemma flow_keys (homeShots awayShots : list Shot.t) :
  Permutation
    (map pointKey (generateCorsiFlow homeShots awayShots))
    (map shotKey (filter isCorsi (homeShots ++ awayShots))).
Proof.
  unfold generateCorsiFlow.
  rewrite flowPoints_keys_of_shots.
  change (filter _ (allShots homeShots awayShots))
    with (filter isCorsiShot (allShots homeShots awayShots)).
  rewrite <- (map_map TeamShot.shot shotKey).
  apply Permutation_map, corsi_shots_of_allShots.
Qed.

(** The flow neither loses, repeats nor invents an event: the periods,
    clocks and types of its points are those of the Corsi events of the two
    lists, each as often as it occurs there.  The field [timeRemaining] of
    every point repeats its elapsed clock: no remaining time is computed. *)
Theorem flow_points_are_the_corsi_events (homeShots awayShots : list Shot.t) :
  Permutation
    (map pointKey (generateCorsiFlow homeShots awayShots))
    (map shotKey (filter isCorsi (homeShots ++ awayShots)))
  /\ Forall (fun p => CorsiFlowPoint.timeRemaining p = CorsiFlowPoint.time p)
       (generateCorsiFlow homeShots awayShots).
Proof.
  split; [apply flow_keys|].
  unfold generateCorsiFlow; apply flowPoints_timeRemaining.
Qed.

Lemma flowPoints_steps (l : list TeamShot.t) :
  forall (h a : Z) (i : nat) (p : CorsiFlowPoint.t),
    nth_error (flowPoints h a l) i = Some p ->
    CorsiFlowPoint.homeCorsi p + CorsiFlowPoint.awayCorsi p
    = h + a + Z.of_nat i + 1
    /\ h <= CorsiFlowPoint.homeCorsi p /\ a <= CorsiFlowPoint.awayCorsi p
    /\ (i = O -> oneMoreEvent h a p)
    /\ (forall q, nth_error (flowPoints h a l) (S i) = Some q ->
        oneMoreEvent (CorsiFlowPoint.homeCorsi p) (CorsiFlowPoint.awayCorsi p) q).
Proof.
  induction l as [|s l IH]; intros h a i p H; [destruct i; discriminate|].
  destruct i as [|i].
  - cbn [flowPoints nth_error] in H; cbv zeta in H.
    injection H as <-; cbn [CorsiFlowPoint.homeCorsi CorsiFlowPoint.awayCorsi].
    repeat split; try (destruct (TeamShot.team s); lia).
    + intros _; unfold oneMoreEvent; simpl; destruct (TeamShot.team s); lia.
    + intros q Hq; cbn [flowPoints nth_error] in Hq; cbv zeta in Hq.
      destruct (IH _ _ O q Hq) as [_ [_ [_ [F _]]]]; apply F; reflexivity.
  - cbn [flowPoints nth_error] in H; cbv zeta in H.
    destruct (IH _ _ i p H) as [S1 [S2 [S3 [_ S5]]]].
    repeat split; try (destruct (TeamShot.team s); lia).
    intros q Hq; cbn [flowPoints nth_error] in Hq; cbv zeta in Hq.
    apply S5, Hq.
Qed.

(** Every point of the flow stands for one event: the two running counts of
    the point at index i add up to i + 1, so the differential of that point
    is between -(i+1) and i+1; the first point has counted one event, and
    from each point to the next exactly one of the two counts goes up by
    one. *)
Theorem flow_counts_one_event_per_point (homeShots awayShots : list Shot.t)
    (i : nat) (p : CorsiFlowPoint.t) :
  nth_error (generateCorsiFlow homeShots awayShots) i = Some p ->
  CorsiFlowPoint.homeCorsi p + CorsiFlowPoint.awayCorsi p = Z.of_nat i + 1
  /\ - (Z.of_nat i + 1) <= CorsiFlowPoint.differential p <= Z.of_nat i + 1
  /\ (i = O -> oneMoreEvent 0 0 p)
  /\ (forall q,
         nth_error (generateCorsiFlow homeShots awayShots) (S i) = Some q ->
         oneMoreEvent (CorsiFlowPoint.homeCorsi p) (CorsiFlowPoint.awayCorsi p) q).
Proof.
  unfold generateCorsiFlow; intros H.
  destruct (flowPoints_steps _ _ _ _ _ H) as [S1 [S2 [S3 [S4 S5]]]].
  pose proof (flowPoints_differential
                (filter (fun shot =>
                           includes CORSI_EVENTS (Shot.type (TeamShot.shot shot)))
                   (allShots homeShots awayShots)) 0 0) as D.
  rewrite Forall_forall in D.
  specialize (D p (nth_error_In _ _ H)); unfold differentialIsDifference in D.
  repeat split; try lia; assumption.
Qed.

Lemma flow_counts_one_event_per_point_witness :
  let p := CorsiFlowPoint.mk 1 "10:00" "10:00" "shot-on-goal" 1 1 0 in
  CorsiFlowPoint.homeCorsi p + CorsiFlowPoint.awayCorsi p = Z.of_nat 1 + 1.
Proof.
  apply (flow_counts_one_event_per_point
           [Shot.mk 1 1 "05:00" "goal" 0 0 None None None None]
           [Shot.mk 2 1 "10:00" "shot-on-goal" 0 0 None None None None]
           1 (CorsiFlowPoint.mk 1 "10:00" "10:00" "shot-on-goal" 1 1 0)).
  reflexivity.
Defined.

Lemma StronglySorted_among {A : Type} (R R' : A -> A -> Prop) (l : list A) :
  (forall a b, In a l -> In b l -> R a b -> R' a b) ->
  StronglySorted R l -> StronglySorted R' l.
Proof.
  intros H S; induction S as [|a l S IH Ha]; constructor.
  - apply IH; intros b c Hb Hc; apply H; right; assumption.
  - rewrite Forall_forall in Ha |- *; intros b Hb.
    apply H; [left; reflexivity | right; exact Hb | apply Ha, Hb].
Qed.

Lemma flow_point_origin (homeShots awayShots : list Shot.t)
    (p : CorsiFlowPoint.t) :
  In p (generateCorsiFlow homeShots awayShots) ->
  exists s : Shot.t,
    In s (homeShots ++ awayShots) /\ isCorsi s = true /\ shotKey s = pointKey p.
Proof.
  intros H.
  apply (in_map pointKey) in H.
  apply (Permutation_in _ (flow_keys homeShots awayShots)) in H.
  apply in_map_iff in H; destruct H as [s [E Hs]].
  apply filter_In in Hs; destruct Hs as [Hs C].
  exists s; repeat split; assumption.
Qed.

(** When the clock strings of the Corsi events are well-formed readings
    within their 20-minute period, the flow is in chronological order: the
    game-elapsed seconds that [timeToSeconds] gives for a point are not more
    than those of any later point. *)
Theorem flow_is_chronological (homeShots awayShots : list Shot.t) :
  (forall s, In s (homeShots ++ awayShots) -> isCorsi s = true ->
             inPeriodClock (Shot.time s) = true) ->
  StronglySorted (fun p q => notLater (flowSeconds p) (flowSeconds q))
    (generateCorsiFlow homeShots awayShots).
Proof.
  intros H.
  assert (W : forall p, In p (generateCorsiFlow homeShots awayShots) ->
                        inPeriodClock (CorsiFlowPoint.time p) = true).
  { intros p Hp; apply flow_point_origin in Hp.
    destruct Hp as [s [Hs [C E]]].
    unfold shotKey, pointKey in E; injection E as _ <- _.
    apply H; assumption. }
  apply (StronglySorted_among flowNotAfter).
  - intros p q Hp Hq O; unfold flowSeconds.
    apply period_clock_order; [apply W, Hp | apply W, Hq | exact O].
  - unfold generateCorsiFlow.
    apply flowPoints_sorted, StronglySorted_filter, allShots_sorted.
Qed.

Lemma flow_is_chronological_witness :
  StronglySorted (fun p q => notLater (flowSeconds p) (flowSeconds q))
    (generateCorsiFlow
       [Shot.mk 1 2 "00:03" "goal" 0 0 None None None None]
       [Shot.mk 2 1 "19:59" "shot-on-goal" 0 0 None None None None]).
Proof.
  apply (flow_is_chronological
           [Shot.mk 1 2 "00:03" "goal" 0 0 None None None None]
           [Shot.mk 2 1 "19:59" "shot-on-goal" 0 0 None None None None]).
  intros s [<-|[<-|[]]] _; reflexivity.
Defined.

(** Without the zero padding the order of the strings is not the order of
    the clock, and the flow comes out of order: the shot at 10:00 is put
    before the shot at 9:00 of the same period. *)
Example flow_out_of_order_without_padding :
  map CorsiFlowPoint.time
    (generateCorsiFlow
       [Shot.mk 1 1 "9:00" "goal" 0 0 None None None None]
       [Shot.mk 2 1 "10:00" "shot-on-goal" 0 0 None None None None])
  = ["10:00"; "9:00"]%string.
Proof. reflexivity. Qed.

(** ** Expected goals, continued *)

Section EstimatorFacts.
Local Open Scope R_scope.

Lemma Math_atan2_abs_opp (y x : R) :
  Rabs (Math_atan2 (- y) x) = Rabs (Math_atan2 y x).
Proof.
  unfold Math_atan2.
  assert (E : atan (- y / x) = - atan (y / x)).
  { replace (- y / x) with (- (y / x)) by (unfold Rdiv; ring).
    apply atan_opp. }
  rewrite E.
  destruct (Rlt_dec 0 x); [apply Rabs_Ropp|].
  destruct (Rlt_dec x 0).
  - destruct (Rle_dec 0 (- y)), (Rle_dec 0 y).
    + assert (Y : y = 0) by lra; subst y.
      replace (0 / x) with 0 by (unfold Rdiv; ring).
      rewrite atan_0, Ropp_0; reflexivity.
    + rewrite <- (Rabs_Ropp (atan (y / x) - PI)); f_equal; ring.
    + rewrite <- (Rabs_Ropp (atan (y / x) + PI)); f_equal; ring.
    + lra.
  - destruct (Rlt_dec 0 (- y)), (Rlt_dec (- y) 0), (Rlt_dec 0 y),
      (Rlt_dec y 0); try lra; try reflexivity;
      rewrite Rabs_Ropp; reflexivity.
Qed.

(** The estimate does not depend on the end of the rink nor on the side of
    the net: mirroring the shot in either axis leaves it unchanged. *)
Theorem estimateXG_is_symmetric (x y : R) (shotType : option string) :
  estimateXG (- x) y shotType = estimateXG x y shotType
  /\ estimateXG x (- y) shotType = estimateXG x y shotType.
Proof.
  unfold estimateXG; cbv zeta; split.
  - rewrite Rabs_Ropp; reflexivity.
  - rewrite Math_atan2_abs_opp.
    replace ((- y - 0) ^ 2) with ((y - 0) ^ 2) by ring.
    reflexivity.
Qed.

Lemma own_multiplier_range (key : string) (v : R) :
  ownProperty typeMultipliers key = Some v -> 0 < v <= 1.3.
Proof.
  unfold typeMultipliers; cbn [ownProperty].
  repeat match goal with
         | |- context [String.eqb key ?k] => destruct (String.eqb key k)
         end;
    intros E; try discriminate E; injection E as <-; lra.
Qed.

Lemma multiplier_range (key : string) :
  includes Object_prototype key = false ->
  exists m : R,
    ToNumber (orElse (getProperty typeMultipliers key) 1.0) = Num m
    /\ 0 < m <= 1.3.
Proof.
  intros H; unfold getProperty; rewrite H.
  destruct (ownProperty typeMultipliers key) as [v|] eqn:E.
  - pose proof (own_multiplier_range key v E) as R.
    unfold orElse; destruct (Req_dec_T v 0) as [Z|_]; [lra|].
    exists v; split; [reflexivity | exact R].
  - exists 1.0; split; [reflexivity | lra].
Qed.

Lemma Math_atan2_abs_le_PI (y x : R) : 0 <= Rabs (Math_atan2 y x) <= PI.
Proof.
  split; [apply Rabs_pos|].
  pose proof PI_RGT_0 as P.
  pose proof (atan_bound (y / x)) as [L U].
  unfold Math_atan2.
  destruct (Rlt_dec 0 x); [apply Rabs_le; lra|].
  destruct (Rlt_dec x 0) as [N|_].
  - assert (I : / x < 0) by (apply Rinv_lt_0_compat; exact N).
    destruct (Rle_dec 0 y) as [Hy|Hy].
    + assert (atan (y / x) <= 0).
      { destruct (Req_dec y 0) as [->|Hne].
        - unfold Rdiv; rewrite Rmult_0_l, atan_0; lra.
        - rewrite <- atan_0; left; apply atan_increasing.
          unfold Rdiv; nra. }
      apply Rabs_le; lra.
    + assert (0 < atan (y / x)).
      { rewrite <- atan_0; apply atan_increasing. unfold Rdiv; nra. }
      apply Rabs_le; lra.
  - destruct (Rlt_dec 0 y); [apply Rabs_le; lra|].
    destruct (Rlt_dec y 0); apply Rabs_le; lra.
Qed.

Lemma before_type_range (x y : R) :
  let distance := sqrt ((Rabs x - 89) ^ 2 + (y - 0) ^ 2) in
  let angle := Rabs (Math_atan2 y (89 - Rabs x)) * (180 / PI) in
  0 <= Rmax 0 (0.4 - distance * 0.008) * (1 - angle / 90 * 0.5) <= 0.4.
Proof.
  cbv zeta.
  pose proof PI_RGT_0 as P.
  pose proof (sqrt_pos ((Rabs x - 89) ^ 2 + (y - 0) ^ 2)) as D.
  pose proof (Math_atan2_abs_le_PI y (89 - Rabs x)) as [A0 A1].
  set (d := sqrt _) in *.
  set (t := Rabs (Math_atan2 y (89 - Rabs x))) in *.
  assert (B : 0 <= Rmax 0 (0.4 - d * 0.008) <= 0.4).
  { split; [apply Rmax_l|]. apply Rmax_lub; lra. }
  assert (F : t * (180 / PI) / 90 * 0.5 = t / PI).
  { replace (t * (180 / PI) / 90 * 0.5) with (t / PI * (180 / 90 * 0.5))
      by (unfold Rdiv; ring).
    replace (180 / 90 * 0.5) with 1 by lra; ring. }
  rewrite F.
  assert (G : 0 <= t / PI <= 1).
  { split.
    - apply Rmult_le_pos; [exact A0 | left; apply Rinv_0_lt_compat; exact P].
    - apply (Rmult_le_reg_r PI); [exact P|].
      unfold Rdiv; rewrite Rmult_assoc, Rinv_l by lra; lra. }
  set (b := Rmax _ _) in *; set (f := t / PI) in *.
  split; nra.
Qed.

(** The cap of 0.95 is never reached: with a shot type that the table knows
    or does not know, the estimate is a number between 0.01 and 0.52, the
    largest product of the base value 0.4 and the multiplier 1.3. *)
Theorem estimateXG_at_most_052 (x y : R) (shotType : option string) :
  (forall st : string,
      shotType = Some st ->
      includes Object_prototype (toLowerCase st) = false) ->
  exists p : R, estimateXG x y shotType = Num p /\ 0.01 <= p <= 0.52.
Proof.
  intros H.
  pose proof (before_type_range x y) as B; cbv zeta in B.
  unfold estimateXG; cbv zeta.
  set (v := Rmax 0 _ * _) in *.
  assert (C : forall w : R, 0 <= w <= 0.52 ->
              exists p : R,
                Math_min (Math_max (Num w) (Num 0.01)) (Num 0.95) = Num p
                /\ 0.01 <= p <= 0.52).
  { intros w Hw; eexists; split; [reflexivity|]. split.
    - apply Rmin_glb; [apply Rmax_r | lra].
    - eapply Rle_trans; [apply Rmin_l|]. apply Rmax_lub; lra. }
  destruct shotType as [st|]; [|apply C; lra].
  destruct (String.eqb st EmptyString); [apply C; lra|].
  destruct (multiplier_range (toLowerCase st) (H st eq_refl)) as [m [-> M]].
  cbn [lift2]; apply C; nra.
Qed.

Lemma estimateXG_at_most_052_witness :
  exists p : R, estimateXG 89 0 (Some "Tip-In"%string) = Num p
                /\ 0.01 <= p <= 0.52.
Proof.
  apply (estimateXG_at_most_052 89 0 (Some "Tip-In"%string)).
  intros st E; injection E as <-; reflexivity.
Defined.

(** A shot from 50 feet or more is worth the floor, 0.01, whatever its angle
    and its type: the base value has decayed to zero there. *)
Theorem estimateXG_far_shot_is_floor (x y : R) (shotType : option string) :
  2500 <= (Rabs x - 89) ^ 2 + (y - 0) ^ 2 ->
  (forall st : string,
      shotType = Some st ->
      includes Object_prototype (toLowerCase st) = false) ->
  estimateXG x y shotType = Num 0.01.
Proof.
  intros F H.
  assert (D : 50 <= sqrt ((Rabs x - 89) ^ 2 + (y - 0) ^ 2)).
  { rewrite <- (sqrt_square 50) by lra.
    apply sqrt_le_1; lra. }
  unfold estimateXG; cbv zeta.
  set (d := sqrt _) in *.
  rewrite (Rmax_left 0 (0.4 - d * 0.008)) by lra.
  rewrite Rmult_0_l.
  assert (C : Math_min (Math_max (Num 0) (Num 0.01)) (Num 0.95) = Num 0.01).
  { unfold Math_min, Math_max; cbn [lift2]; f_equal.
    rewrite Rmax_right by lra; apply Rmin_left; lra. }
  destruct shotType as [st|]; [|exact C].
  destruct (String.eqb st EmptyString); [exact C|].
  destruct (multiplier_range (toLowerCase st) (H st eq_refl)) as [m [-> M]].
  cbn [lift2]; rewrite Rmult_0_l; exact C.
Qed.

Lemma estimateXG_far_shot_is_floor_witness :
  estimateXG 0 0 (Some "slap"%string) = Num 0.01.
Proof.
  apply (estimateXG_far_shot_is_floor 0 0 (Some "slap"%string)).
  - rewrite Rabs_R0; lra.
  - intros st E; injection E as <-; reflexivity.
Defined.
End EstimatorFacts.

Lemma lowerChar_idempotent (c : ascii) : lowerChar (lowerChar c) = lowerChar c.
Proof.
  destruct c as [[] [] [] [] [] [] [] []]; reflexivity.
Qed.

Lemma toLowerCase_idempotent (s : string) :
  toLowerCase (toLowerCase s) = toLowerCase s.
Proof.
  induction s as [|c s IH]; [reflexivity|].
  simpl; rewrite lowerChar_idempotent, IH; reflexivity.
Qed.

Lemma toLowerCase_empty (s : string) :
  String.eqb (toLowerCase s) EmptyString = String.eqb s EmptyString.
Proof. destruct s; reflexivity. Qed.

(** The shot type is read without regard to case: a type and its lower-case
    form give the same estimate. *)
Theorem estimateXG_ignores_case (x y : R) (st : string) :
  estimateXG x y (Some (toLowerCase st)) = estimateXG x y (Some st).
Proof.
  unfold estimateXG; cbv zeta.
  rewrite toLowerCase_empty, toLowerCase_idempotent; reflexivity.
Qed.

Section EstimatorTypes.
Local Open Scope R_scope.

Lemma times_one (v : R) : lift2 Rmult (Num v) (Num 1.0) = Num v.
Proof. cbn [lift2]; f_equal; lra. Qed.

(** A shot type that is empty, or that the table does not list and the
    object does not inherit, or the wrist shot with its multiplier 1, leaves
    the estimate as it is without a type. *)
Theorem estimateXG_neutral_types (x y : R) (st : string) :
  st = EmptyString
  \/ (ownProperty typeMultipliers (toLowerCase st) = None
      /\ includes Object_prototype (toLowerCase st) = false)
  \/ toLowerCase st = "wrist"%string ->
  estimateXG x y (Some st) = estimateXG x y None.
Proof.
  intros H; unfold estimateXG; cbv zeta.
  destruct (String.eqb st EmptyString) eqn:E; [reflexivity|].
  destruct H as [->|[[O P]|W]].
  - discriminate E.
  - unfold getProperty; rewrite O, P; cbn [orElse ToNumber].
    rewrite times_one; reflexivity.
  - rewrite W.
    assert (G : getProperty typeMultipliers "wrist" = Number_ 1.0)
      by reflexivity.
    rewrite G; unfold orElse.
    destruct (Req_dec_T 1.0 0) as [Z|_]; [lra|].
    cbn [ToNumber]; rewrite times_one; reflexivity.
Qed.

Lemma estimateXG_neutral_types_witness :
  estimateXG 60 10 (Some "poke"%string) = estimateXG 60 10 None.
Proof.
  apply (estimateXG_neutral_types 60 10 "poke"%string).
  right; left; split; reflexivity.
Defined.
End EstimatorTypes.

(** ** The player radar *)

Lemma normalizeValue_cases (value max : Q) :
  (0 < max)%Q ->
  ((value < max)%Q /\ (normalizeValue value max == value / max * 100)%Q)
  \/ ((max <= value)%Q /\ (normalizeValue value max == 100)%Q).
Proof.
  intros Hm; unfold normalizeValue.
  assert (E : (value / max * 100 == (100 * value) / max)%Q)
    by (field; intros Z; rewrite Z in Hm; Lqa.lra).
  destruct (Q.min_spec (value / max * 100) 100) as [[L M]|[L M]].
  - left; split; [|exact M].
    rewrite E in L.
    destruct (Qlt_le_dec value max) as [H|H]; [exact H|exfalso].
    assert (G : (100 <= 100 * value / max)%Q)
      by (apply Qle_shift_div_l; [exact Hm | Lqa.lra]).
    Lqa.lra.
  - right; split; [|exact M].
    rewrite E in L.
    destruct (Qlt_le_dec value max) as [H|H]; [exfalso|exact H].
    assert (G : (100 * value / max < 100)%Q)
      by (apply Qlt_shift_div_r; [exact Hm | Lqa.lra]).
    Lqa.lra.
Qed.

Lemma normalizeValue_at_most_100 (value max : Q) :
  (normalizeValue value max <= 100)%Q.
Proof. unfold normalizeValue; apply Q.le_min_r. Qed.

(** No axis of the radar goes beyond 100.  The plus/minus axis shows the
    size of the plus/minus only: it is the same for +n and -n, never below
    50, and at its end, 100, from a plus/minus of 25 in either direction. *)
Theorem radar_axes (player : PlayerComparisonData.t) :
  Forall (fun v => (v <= 100)%Q) (normalizePlayer player)
  /\ (50 <= nth 4 (normalizePlayer player) 0 <= 100)%Q
  /\ (nth 4 (normalizePlayer
               (withPlusMinus player (- PlayerComparisonData.plusMinus player)))
        0
      == nth 4 (normalizePlayer player) 0)%Q
  /\ ((25 <= Qabs (PlayerComparisonData.plusMinus player))%Q ->
      (nth 4 (normalizePlayer player) 0 == 100)%Q).
Proof.
  assert (A : forall pm : Q,
            ((Qabs pm < 25)%Q
             /\ (normalizeValue (Qabs pm + 25) maxValues.plusMinus
                 == 2 * Qabs pm + 50)%Q)
            \/ ((25 <= Qabs pm)%Q
                /\ (normalizeValue (Qabs pm + 25) maxValues.plusMinus == 100)%Q)).
  { intros pm.
    destruct (normalizeValue_cases (Qabs pm + 25) maxValues.plusMinus)
      as [[L M]|[L M]]; [reflexivity| |]; unfold maxValues.plusMinus in *.
    - left; split; [Lqa.lra|]. rewrite M; field.
    - right; split; [Lqa.lra | exact M]. }
  split; [|split; [|split]].
  - unfold normalizePlayer; repeat constructor; apply normalizeValue_at_most_100.
  - cbn [normalizePlayer nth].
    pose proof (Qabs_nonneg (PlayerComparisonData.plusMinus player)) as N.
    destruct (A (PlayerComparisonData.plusMinus player)) as [[L M]|[L M]];
      rewrite M; split; Lqa.lra.
  - cbn [normalizePlayer nth withPlusMinus PlayerComparisonData.plusMinus].
    pose proof (Qabs_opp (PlayerComparisonData.plusMinus player)) as O.
    destruct (A (PlayerComparisonData.plusMinus player)) as [[L M]|[L M]],
      (A (- PlayerComparisonData.plusMinus player)%Q) as [[L' M']|[L' M']];
      rewrite M, M'; Lqa.lra.
  - intros H; cbn [normalizePlayer nth].
    destruct (A (PlayerComparisonData.plusMinus player)) as [[L M]|[L M]];
      [Lqa.lra | exact M].
Qed.

Lemma radar_axes_witness :
  (nth 4 (normalizePlayer (PlayerComparisonData.mk "A B" 30 40 70 200 (-31) 21))
     0 == 100)%Q.
Proof.
  apply (radar_axes (PlayerComparisonData.mk "A B" 30 40 70 200 (-31) 21)).
  discriminate.
Defined.

(** ** Play-by-play on the server *)

(** Every shot that [extractShots] returns is a Corsi event, so the Corsi
    count of the extracted list is its length; and a play is extracted at
    most once, whatever team is asked for. *)
Theorem extractShots_are_corsi_events (plays : list Play.t)
    (teamAbbrev : option string) :
  Forall (fun s => isCorsi s = true) (extractShots plays teamAbbrev)
  /\ calculateCorsiFor (extractShots plays teamAbbrev)
     = Z.of_nat (List.length (extractShots plays teamAbbrev))
  /\ (List.length (extractShots plays teamAbbrev) <= List.length plays)%nat.
Proof.
  assert (F : Forall (fun s => isCorsi s = true) (extractShots plays teamAbbrev)).
  { unfold extractShots; rewrite Forall_map, Forall_forall.
    intros play H; apply filter_In in H; destruct H as [H _].
    apply filter_In in H; destruct H as [_ H]; exact H. }
  split; [exact F|]. split.
  - unfold calculateCorsiFor; f_equal; f_equal.
    apply filter_keeps_all, F.
  - unfold extractShots; rewrite length_map.
    etransitivity; [apply filter_length_le_all|apply filter_length_le_all].
Qed.

(** A shot without coordinates is left out, and a player id of 0 counts as
    missing: the scorer's id is taken instead. *)
Example extractShots_edge_cases :
  let d := Details.mk (Some 70%Q) (Some 5%Q) (Some 0) None None (Some 97)
             None None in
  extractShots
    [Play.mk 1 1 "05:00" "15:00" "1551" "goal" 505 (Some d);
     Play.mk 2 1 "06:00" "14:00" "1551" "shot-on-goal" 506 None;
     Play.mk 3 1 "07:00" "13:00" "1551" "faceoff" 502 (Some d)]
    None
  = [Shot.mk 1 1 "05:00" "goal" 70 5 (Some 97) None None None].
Proof. reflexivity. Qed.

Lemma serverFlow_alternates (events : list Play.t) :
  forall h a i : Z,
    0 <= i -> h = (i + 1) / 2 -> a = i / 2 ->
    let n := Z.of_nat (List.length events) in
    fst (snd (serverFlow h a i events)) = (i + n + 1) / 2
    /\ snd (snd (serverFlow h a i events)) = (i + n) / 2
    /\ List.length (fst (serverFlow h a i events)) = List.length events
    /\ Forall (fun p => ServerFlowPoint.differential p = 0
                        \/ ServerFlowPoint.differential p = 1)
         (fst (serverFlow h a i events)).
Proof.
  induction events as [|event rest IH]; intros h a i Hi Hh Ha; cbv zeta.
  - cbn [serverFlow fst snd List.length Z.of_nat].
    rewrite !Z.add_0_r; repeat split; auto.
  - cbn [serverFlow]; cbv zeta.
    rewrite Z.rem_mod_nonneg by lia.
    set (h' := if i mod 2 =? 0 then h + 1 else h).
    set (a' := if i mod 2 =? 0 then a else a + 1).
    assert (Hh' : h' = (i + 1 + 1) / 2 /\ a' = (i + 1) / 2
                  /\ (h' - a' = 0 \/ h' - a' = 1)).
    { subst h' a'; destruct (Z.eqb_spec (i mod 2) 0) as [E|E];
        subst h a; Z.div_mod_to_equations; lia. }
    destruct Hh' as [E1 [E2 E3]].
    specialize (IH h' a' (i + 1) ltac:(lia) E1 E2); cbv zeta in IH.
    destruct (serverFlow h' a' (i + 1) rest) as [points final].
    cbn [fst snd] in *. destruct IH as [I1 [I2 [I3 I4]]].
    cbn [List.length]; rewrite Nat2Z.inj_succ.
    repeat split.
    + rewrite I1; f_equal; lia.
    + rewrite I2; f_equal; lia.
    + rewrite I3; reflexivity.
    + constructor; [exact E3 | exact I4].
Qed.

(** The route [/corsi/:gameId] gives the shot events to the two sides in
    turn, whoever took them: of n events the home side gets the first, the
    third, ..., so its count is one more than or equal to the away count,
    the differential of every point is 0 or 1, and the percentage is at
    least 50.  With no event the percentage is NaN: the route has no
    tie-break where [calculateCorsiPercent] returns 50. *)
Theorem corsiRoute_alternates (plays : list Play.t) :
  let r := corsiRoute plays in
  let n := Z.of_nat (List.length
                       (filter (fun play => includes shotTypes (Play.typeDescKey play))
                          plays)) in
  CorsiData.homeCorsi r = (n + 1) / 2
  /\ CorsiData.awayCorsi r = n / 2
  /\ List.length (CorsiData.flow r) = Z.to_nat n
  /\ Forall (fun p => ServerFlowPoint.differential p = 0
                      \/ ServerFlowPoint.differential p = 1)
       (CorsiData.flow r)
  /\ (if n =? 0 then CorsiData.corsiPercent r = NaN
      else exists q : Q, CorsiData.corsiPercent r = Num q
                         /\ (50 <= q <= 100)%Q).
Proof.
  cbv zeta; unfold corsiRoute; cbv zeta.
  set (events := filter _ plays).
  destruct (serverFlow_alternates events 0 0 0) as [S1 [S2 [S3 S4]]];
    [lia | reflexivity | reflexivity |].
  destruct (serverFlow 0 0 0 events) as [points [h a]].
  cbn [fst snd] in *.
  cbn [CorsiData.homeCorsi CorsiData.awayCorsi CorsiData.flow
       CorsiData.corsiPercent].
  rewrite Z.add_0_l in S1, S2.
  set (n := Z.of_nat (List.length events)) in *.
  assert (Hn : 0 <= n) by (subst n; lia).
  repeat split; try assumption.
  - rewrite S3; subst n; lia.
  - assert (T : h + a = n) by (subst h a; Z.div_mod_to_equations; lia).
    rewrite T.
    destruct (Z.eqb_spec n 0) as [E|E]; [reflexivity|].
    eexists; split; [reflexivity|].
    assert (P : (0 < inject_Z n)%Q) by (unfold Qlt; simpl; lia).
    assert (R : (inject_Z h / inject_Z n * 100
                 == (100 * inject_Z h) / inject_Z n)%Q)
      by (field; intros Z; rewrite Z in P; Lqa.lra).
    assert (B : (inject_Z n <= 2 * inject_Z h)%Q /\ (inject_Z h <= inject_Z n)%Q).
    { split.
      - change 2%Q with (inject_Z 2); rewrite <- inject_Z_mult.
        rewrite <- Zle_Qle; subst h; Z.div_mod_to_equations; lia.
      - rewrite <- Zle_Qle; subst h; Z.div_mod_to_equations; lia. }
    rewrite R; split.
    + apply Qle_shift_div_l; [exact P | Lqa.lra].
    + apply Qle_shift_div_r; [exact P | Lqa.lra].
Qed.

(** Three shots by the away side are reported as two to one for the home
    side. *)
Example corsiRoute_ignores_the_shooter :
  let r := corsiRoute
             [Play.mk 1 1 "05:00" "15:00" "1551" "shot-on-goal" 506 None;
              Play.mk 2 1 "06:00" "14:00" "1551" "missed-shot" 507 None;
              Play.mk 3 1 "07:00" "13:00" "1551" "blocked-shot" 508 None] in
  CorsiData.homeCorsi r = 2 /\ CorsiData.awayCorsi r = 1
  /\ map ServerFlowPoint.differential (CorsiData.flow r) = [1; 0; 1].
Proof. repeat split. Qed.
